(** * medpy.io.load: suffix routing with brute-force fallback

    A shallow embedding of [src/medpy/io/load.py]: the public function
    [load] and its three private loaders [__load_nibabel],
    [__load_pydicom] and [__load_itk].

    - Python byte strings are [string]; [str.split], [str.lower],
      [str.join], negative indexing and slicing are written out.
    - The three responsibility dictionaries are [gmap string _]; a subscript
      on a missing key raises [KeyError], as in Python.
    - Exceptions are values of [Exn]; a computation either returns or
      raises ([Res]).  Code that calls third-party modules threads a
      state ([M]) holding the outside world and a trace of the calls made.
    - The third-party modules (os, nibabel, dicom, itk, itku) are the
      fields of a record [Externals]; NumPy arrays are strided views
      ([ndarray]) with [squeeze] and [transpose] as NumPy defines them.
    - Calls to the logger are left out: no property below observes them. *)

From Stdlib Require Import Ascii String.
From stdpp Require Import base option list gmap strings.

Local Open Scope string_scope.
Local Open Scope list_scope.

(** ** Python strings *)

Module PyStr.

Definition dot : ascii := "."%char.
Definition apostrophe : ascii := "'"%char.
Definition quotation : ascii := ascii_of_nat 34.
Definition backslash : ascii := ascii_of_nat 92.

Definition is_dot (c : ascii) : bool := bool_decide (c = dot).

(** [c.lower()] on one byte: only [A]..[Z] change. *)
Definition lower_char (c : ascii) : ascii :=
  let n := nat_of_ascii c in
  if ((65 <=? n) && (n <=? 90))%nat then ascii_of_nat (n + 32) else c.

(** [s.lower()] *)
Fixpoint lower (s : string) : string :=
  match s with
  | EmptyString => EmptyString
  | String c s' => String (lower_char c) (lower s')
  end.

(** [s.split('.')]: the segments between the dots, never an empty list. *)
Fixpoint split (s : string) : list string :=
  match s with
  | EmptyString => [EmptyString]
  | String c s' =>
      if is_dot c then EmptyString :: split s'
      else match split s' with
           | seg :: segs => String c seg :: segs
           | [] => [String c EmptyString]
           end
  end.

(** [sep.join(segs)] *)
Fixpoint join (sep : string) (segs : list string) : string :=
  match segs with
  | [] => EmptyString
  | seg :: segs' =>
      match segs' with
      | [] => seg
      | _ :: _ => seg +:+ sep +:+ join sep segs'
      end
  end.

(** [segs[-2:]]: the last two items, or all of them when there are fewer. *)
Definition slice_last_two {A} (l : list A) : list A :=
  drop (length l - 2) l.

Fixpoint count_dots (s : string) : nat :=
  match s with
  | EmptyString => 0
  | String c s' => (if is_dot c then 1 else 0) + count_dots s'
  end.

(** The text after the [k]-th dot counted from the end of [s]; all of
    [s] when it has fewer than [k] dots.  This is how the prose names
    the suffixes: [after_dot 1 s] is the substring after the last dot
    and [after_dot 2 s] the last two dot-separated segments. *)
Fixpoint after_dot (k : nat) (s : string) : string :=
  match s with
  | EmptyString => EmptyString
  | String c s' =>
      if (k <=? count_dots s')%nat then after_dot k s'
      else if is_dot c && (S (count_dots s') =? k)%nat then s'
      else s
  end.

(** [needle in hay] *)
Definition contains (needle hay : string) : Prop :=
  ∃ pre post, hay = pre +:+ needle +:+ post.

Definition hex_digit (n : nat) : ascii :=
  default "0"%char (list_ascii_of_string "0123456789abcdef" !! n).

(** One byte of [repr(s)] inside the quotes [q]. *)
Definition repr_char (q c : ascii) : string :=
  let n := nat_of_ascii c in
  if bool_decide (c = q) || bool_decide (c = backslash)
  then String backslash (String c EmptyString)
  else if (n =? 9)%nat then "\t"
  else if (n =? 10)%nat then "\n"
  else if (n =? 13)%nat then "\r"
  else if ((n <? 32) || (127 <=? n))%nat
  then "\x" +:+ String (hex_digit (n / 16)) (String (hex_digit (n mod 16)) EmptyString)
  else String c EmptyString.

Fixpoint repr_body (q : ascii) (s : string) : string :=
  match s with
  | EmptyString => EmptyString
  | String c s' => repr_char q c +:+ repr_body q s'
  end.

Fixpoint has_char (c : ascii) (s : string) : bool :=
  match s with
  | EmptyString => false
  | String c' s' => bool_decide (c' = c) || has_char c s'
  end.

(** [repr(s)] of a byte string: single quotes, unless [s] holds one and
    no double quote. *)
Definition py_repr (s : string) : string :=
  let q := if has_char apostrophe s && negb (has_char quotation s)
           then quotation else apostrophe in
  String q (repr_body q s +:+ String q EmptyString).

(** [str(l)] of a list of strings: the items' [repr] between brackets. *)
Definition py_str_list (l : list string) : string :=
  "[" +:+ join ", " (py_repr <$> l) +:+ "]".

(** A string [repr] leaves as it is between two apostrophes. *)
Fixpoint plain (s : string) : bool :=
  match s with
  | EmptyString => true
  | String c s' =>
      let n := nat_of_ascii c in
      (32 <=? n)%nat && (n <? 127)%nat
      && negb (bool_decide (c = apostrophe)) && negb (bool_decide (c = backslash))
      && plain s'
  end.

End PyStr.
Import PyStr.

(** ** NumPy arrays *)

Module NumPy.

(** An array is a view on a buffer: per axis its extent and its stride,
    and the position of the first item. *)
Record ndarray (E : Type) := mk_ndarray {
  dims : list (nat * Z);
  offset : Z;
  buffer : list E
}.
Arguments mk_ndarray {E} dims offset buffer.
Arguments dims {E} _.
Arguments offset {E} _.
Arguments buffer {E} _.

(** [a.shape] *)
Definition shape {E} (a : ndarray E) : list nat := (dims a).*1.

(** Where the item at [idx] lies, relative to the first one; [None] when
    [idx] has the wrong length or leaves an axis. *)
Fixpoint locate (ds : list (nat * Z)) (idx : list nat) : option Z :=
  match ds, idx with
  | [], [] => Some 0%Z
  | (n, stride) :: ds', i :: idx' =>
      if (i <? n)%nat
      then (λ p, Z.of_nat i * stride + p)%Z <$> locate ds' idx'
      else None
  | _, _ => None
  end.

(** [a[idx]] *)
Definition item {E} (a : ndarray E) (idx : list nat) : option E :=
  p ← locate (dims a) idx;
  let q := (offset a + p)%Z in
  if (0 <=? q)%Z then buffer a !! Z.to_nat q else None.

(** [scipy.squeeze(a)]: the axes of extent one are removed. *)
Definition squeeze {E} (a : ndarray E) : ndarray E :=
  mk_ndarray (filter (λ d : nat * Z, d.1 ≠ 1) (dims a)) (offset a) (buffer a).

(** [scipy.transpose(a)]: the axes are reversed. *)
Definition transpose {E} (a : ndarray E) : ndarray E :=
  mk_ndarray (reverse (dims a)) (offset a) (buffer a).

(** The index into an array of shape [sh] that an index into its
    squeezed view stands for: a zero on every axis of extent one. *)
Fixpoint unsqueeze_index (sh : list nat) (idx : list nat) : list nat :=
  match sh with
  | [] => idx
  | n :: sh' =>
      if decide (n = 1) then 0 :: unsqueeze_index sh' idx
      else match idx with
           | [] => []
           | i :: idx' => i :: unsqueeze_index sh' idx'
           end
  end.

Fixpoint drop_leading_ones (sh : list nat) : list nat :=
  match sh with
  | [] => []
  | n :: sh' => if decide (n = 1) then drop_leading_ones sh' else sh
  end.

(** The reading of the prose: only the singleton axes at the two ends of
    the shape go, an inner one stays. *)
Definition strip_singleton_ends (sh : list nat) : list nat :=
  reverse (drop_leading_ones (reverse (drop_leading_ones sh))).

(** [a.size]: the number of items, the product of the extents. *)
Definition size {E} (a : ndarray E) : nat := foldr Nat.mul 1 (shape a).

End NumPy.
Import NumPy.

(** ** Exceptions and results *)

(** The exception classes the handlers of this module tell apart.  A
    class stands for itself and its subclasses; [OtherException] is any
    other class derived from [Exception]. *)
Inductive ExnClass :=
  | ImportError
  | KeyError
  | IndexError
  | InvalidDicomError
  | ImageLoadingError
  | ImageTypeError
  | DependencyError
  | OtherException.

Global Instance ExnClass_eq_dec : EqDecision ExnClass.
Proof. solve_decision. Defined.

(** An exception object: its class and [str(e)]. *)
Record Exn := mkExn { exn_class : ExnClass; exn_str : string }.

Global Instance Exn_eq_dec : EqDecision Exn.
Proof. solve_decision. Defined.

Inductive Res (A : Type) :=
  | Ok (a : A)
  | Raise (e : Exn).
Arguments Ok {A} a.
Arguments Raise {A} e.

Definition res_bind {A B} (r : Res A) (k : A → Res B) : Res B :=
  match r with
  | Ok a => k a
  | Raise e => Raise e
  end.

(** [d[k]] *)
Definition getitem {V} (d : gmap string V) (k : string) : Res V :=
  match d !! k with
  | Some v => Ok v
  | None => Raise (mkExn KeyError (py_repr k))
  end.

(** [k in d] *)
Definition has_key {V} (d : gmap string V) (k : string) : bool :=
  bool_decide (is_Some (d !! k)).

(** [l[-1]] *)
Definition getitem_last (l : list string) : Res string :=
  match last l with
  | Some x => Ok x
  | None => Raise (mkExn IndexError "list index out of range")
  end.

(** ** The responsibility dictionaries of [load] *)

(** The private loader functions, as the values stored in the tables. *)
Inductive Loader :=
  | load_nibabel
  | load_pydicom
  | load_itk.

Global Instance Loader_eq_dec : EqDecision Loader.
Proof. solve_decision. Defined.

Definition suffix_to_type : gmap string string :=
  list_to_map
    [ ("nii", "nifti");
      ("nii.gz", "nifti");
      ("hdr", "analyze");
      ("img", "analyze");
      ("img.gz", "analyze");
      ("dcm", "dicom");
      ("dicom", "dicom");
      ("mhd", "meta");
      ("mha", "meta");
      ("nrrd", "nrrd");
      ("nhdr", "nrrd");
      ("png", "png");
      ("bmp", "bmp");
      ("tif", "tif");
      ("tiff", "tif");
      ("jpg", "jpg");
      ("jpeg", "jpg") ].

Definition type_to_string : gmap string string :=
  list_to_map
    [ ("nifti", "NifTi - Neuroimaging Informatics Technology Initiative (.nii, nii.gz)");
      ("analyze", "Analyze (plain, SPM99, SPM2) (.hdr/.img, .img.gz)");
      ("dicom", "Dicom - Digital Imaging and Communications in Medicine (.dcm, .dicom)");
      ("meta", "Itk/Vtk MetaImage (.mhd, .mha/.raw)");
      ("nrrd", "Nrrd - Nearly Raw Raster Data (.nhdr, .nrrd)");
      ("png", "Portable Network Graphics (.png)");
      ("bmp", "Bitmap Image File (.bmp)");
      ("tif", "Tagged Image File Format (.tif,.tiff)");
      ("jpg", "Joint Photographic Experts Group (.jpg, .jpeg)") ].

Definition type_to_function : gmap string Loader :=
  list_to_map
    [ ("nifti", load_nibabel);
      ("analyze", load_nibabel);
      ("dicom", load_pydicom);
      ("meta", load_itk);
      ("nrrd", load_itk);
      ("png", load_itk);
      ("bmp", load_itk);
      ("tif", load_itk);
      ("jpg", load_itk) ].

Definition load_fallback_order : list Loader :=
  [load_nibabel; load_pydicom; load_itk].

(** ** Classification by suffix (lines 145-153 of [load]) *)

(** The two-step choice of the suffix; [raise KeyError()] when neither
    the last segment nor the compound of the last two is a key. *)
Definition determine_suffix (image : string) : Res string :=
  res_bind (getitem_last (split image)) (λ ending,
    let suffix := lower ending in
    if has_key suffix_to_type suffix then Ok suffix
    else
      let suffix := join "." (lower <$> slice_last_two (split image)) in
      if has_key suffix_to_type suffix then Ok suffix
      else Raise (mkExn KeyError EmptyString)).

(** [image_type = suffix_to_type[suffix]] *)
Definition classify (image : string) : Res string :=
  res_bind (determine_suffix image) (getitem suffix_to_type).

(** [loader = type_to_function[image_type]], together with the type. *)
Definition routing (image : string) : Res (string * Loader) :=
  res_bind (classify image) (λ image_type,
    res_bind (getitem type_to_function image_type) (λ loader,
      Ok (image_type, loader))).

(** The suffixes as the description groups them by backend. *)
Definition nibabel_suffixes : list string :=
  ["nii"; "nii.gz"; "hdr"; "img"; "img.gz"].
Definition pydicom_suffixes : list string :=
  ["dcm"; "dicom"].
Definition itk_suffixes : list string :=
  ["mhd"; "mha"; "nrrd"; "nhdr"; "png"; "bmp"; "tif"; "tiff"; "jpg"; "jpeg"].

(** ** The outside world *)

(** The calls this module makes that the properties below observe. *)
Inductive Event :=
  | EvExists (image : string)
  | EvLoader (loader : Loader) (image : string)
  | EvDicomRead (image : string) (force : bool).

Global Instance Event_eq_dec : EqDecision Event.
Proof. solve_decision. Defined.

Definition as_loader_call (ev : Event) : option (Loader * string) :=
  match ev with EvLoader loader image => Some (loader, image) | _ => None end.

Definition as_exists_check (ev : Event) : option string :=
  match ev with EvExists image => Some image | _ => None end.

Definition as_dicom_read (ev : Event) : option (string * bool) :=
  match ev with EvDicomRead image force => Some (image, force) | _ => None end.

(** The loader calls, the existence checks and the DICOM reads of a
    trace, in the order they were made. *)
Definition loader_calls (tr : list Event) : list (Loader * string) :=
  omap as_loader_call tr.

Definition exists_checks (tr : list Event) : list string :=
  omap as_exists_check tr.

Definition dicom_reads (tr : list Event) : list (string * bool) :=
  omap as_dicom_read tr.

(** The third-party modules and the interpreter, as this module uses
    them.  Every call may change the world and may raise; an [import]
    statement is a call like the others. *)
Record Externals := {
  World : Type;
  Scalar : Type;
  NibabelImage : Type;
  DicomDataset : Type;
  ItkImageType : Type;
  ItkImage : Type;
  (** [os.path.exists(image)] *)
  os_path_exists : string → World → bool;
  (** [import nibabel]; [nibabel.load(image)]; [img.get_data()] *)
  import_nibabel : World → Res () * World;
  nibabel_load : string → World → Res NibabelImage * World;
  nibabel_get_data : NibabelImage → World → Res (ndarray Scalar) * World;
  (** [import dicom]; [dicom.read_file(image, force)]; [img.pixel_array] *)
  import_dicom : World → Res () * World;
  dicom_read_file : string → bool → World → Res DicomDataset * World;
  dicom_pixel_array : DicomDataset → World → Res (ndarray Scalar) * World;
  (** [import itk]; [from ..itkvtk.utilities import itku] *)
  import_itk : World → Res () * World;
  import_itku : World → Res () * World;
  (** [itku.getImageTypeFromFile(image)]; [None] is a false value *)
  itku_getImageTypeFromFile : string → World → Res (option ItkImageType) * World;
  (** the reader: [New], [SetFileName], [Update], [GetOutput] *)
  itk_read : ItkImageType → string → World → Res ItkImage * World;
  (** [itku.getArrayFromImage(img)] *)
  itku_getArrayFromImage : ItkImage → World → Res (ndarray Scalar) * World;
  (** [img.New()] and [Graft(img)]; the same through [img.GetPointer()] *)
  itk_new_graft : ItkImage → World → Res ItkImage * World;
  itk_pointer_new_graft : ItkImage → World → Res ItkImage * World;
  (** [d.values()]: the values of a dictionary in the interpreter's order *)
  dict_values : gmap string string → list string
}.

Declare Scope py_scope.
Delimit Scope py_scope with py.

Section Load.

Variable X : Externals.

(** The header object a loader returns beside the array. *)
Inductive Header :=
  | NibabelHeader (img : NibabelImage X)
  | DicomHeader (img : DicomDataset X)
  | ItkHeader (img : ItkImage X).

(** [(image_data, image_header)] *)
Definition Loaded : Type := ndarray (Scalar X) * Header.

Record State := mkState {
  world : World X;
  trace : list Event
}.

(** A computation: from a state to a result, or an exception, and the
    state it leaves. *)
Definition M (A : Type) : Type := State → Res A * State.

Definition ret {A} (a : A) : M A := λ st, (Ok a, st).

Definition raise {A} (e : Exn) : M A := λ st, (Raise e, st).

Definition bind {A B} (m : M A) (k : A → M B) : M B :=
  λ st, match m st with
        | (Ok a, st') => k a st'
        | (Raise e, st') => (Raise e, st')
        end.

Notation "x <- m ;; k" := (bind m (λ x, k))
  (at level 100, m at next level, right associativity) : py_scope.

Local Open Scope py_scope.

Definition lift {A} (r : Res A) : M A := λ st, (r, st).

(** A call into a third-party module. *)
Definition extern {A} (f : World X → Res A * World X) : M A :=
  λ st, let '(r, w) := f (world st) in (r, mkState w (trace st)).

Definition emit (ev : Event) : M () :=
  λ st, (Ok (), mkState (world st) (trace st ++ [ev])).

(** [try: m  except ...:]  the handler [h] gives the clause that catches
    [e], if one does. *)
Definition try_except {A} (m : M A) (h : Exn → option (M A)) : M A :=
  λ st, match m st with
        | (Ok a, st') => (Ok a, st')
        | (Raise e, st') =>
            match h e with
            | Some k => k st'
            | None => (Raise e, st')
            end
        end.

Definition is_class (c : ExnClass) (e : Exn) : bool :=
  bool_decide (exn_class e = c).

(** [os.path.exists(image)] *)
Definition path_exists (image : string) : M bool :=
  _ <- emit (EvExists image) ;;
  λ st, (Ok (os_path_exists X image (world st)), st).

(** *** The private loaders *)

Definition __load_nibabel (image : string) : M Loaded :=
  _ <- extern (import_nibabel X) ;;
  img <- extern (nibabel_load X image) ;;
  data <- extern (nibabel_get_data X img) ;;
  let arr := squeeze data in
  ret (arr, NibabelHeader img).

Definition dicom_read (image : string) (force : bool) : M (DicomDataset X) :=
  _ <- emit (EvDicomRead image force) ;;
  extern (dicom_read_file X image force).

Definition __load_pydicom (image : string) : M Loaded :=
  _ <- extern (import_dicom X) ;;
  img <- try_except (dicom_read image false)
           (λ e, if is_class InvalidDicomError e
                 then Some (dicom_read image true)
                 else None) ;;
  arr <- extern (dicom_pixel_array X img) ;;
  ret (transpose arr, DicomHeader img).

Definition __load_itk (image : string) : M Loaded :=
  _ <- extern (import_itk X) ;;
  _ <- extern (import_itku X) ;;
  image_type <- extern (itku_getImageTypeFromFile X image) ;;
  match image_type with
  | None => raise (mkExn ImageLoadingError "This image can not be loaded with ITK.")
  | Some ty =>
      img <- extern (itk_read X ty image) ;;
      arr <- extern (itku_getArrayFromImage X img) ;;
      img_copy <- try_except (extern (itk_new_graft X img))
                    (λ _, Some (extern (itk_pointer_new_graft X img))) ;;
      ret (arr, ItkHeader img_copy)
  end.

Definition loader_function (loader : Loader) : string → M Loaded :=
  match loader with
  | load_nibabel => __load_nibabel
  | load_pydicom => __load_pydicom
  | load_itk => __load_itk
  end.

(** [loader(image)] *)
Definition call (loader : Loader) (image : string) : M Loaded :=
  _ <- emit (EvLoader loader image) ;;
  loader_function loader image.

(** *** The errors [load] builds *)

Definition missing_error (image : string) : Exn :=
  mkExn ImageLoadingError ("The supplied image " +:+ image +:+ " does not exist.").

Definition dependency_error (description : string) (e : Exn) : Exn :=
  mkExn DependencyError
    ("Loading images of type " +:+ description
     +:+ " requires a third-party module that could not be encountered. Reason: "
     +:+ exn_str e +:+ ".").

Definition loading_error (image description : string) (e : Exn) : Exn :=
  mkExn ImageLoadingError
    ("Failes to load image " +:+ image +:+ " as " +:+ description
     +:+ ". Reason signaled by third-party module: " +:+ exn_str e).

Definition type_error (ending image : string) (descriptions : list string) : Exn :=
  mkExn ImageTypeError
    ("The ending " +:+ ending +:+ " of " +:+ image
     +:+ " could not be associated with any known image type. Supported types are: "
     +:+ py_str_list descriptions).

(** *** [load] *)

(** What the first [try] statement leaves: the function has returned, or
    [err] is bound. *)
Inductive Flow :=
  | Returned (r : Loaded)
  | Pending (err : Exn).

(** Lines 143-162: the normal loading. *)
Definition normal_loading (image : string) : M Flow :=
  try_except
    (routed <- lift (routing image) ;;
     let '(image_type, loader) := routed in
     try_except
       (r <- call loader image ;; ret (Returned r))
       (λ e, if is_class ImportError e
             then Some (description <- lift (getitem type_to_string image_type) ;;
                        ret (Pending (dependency_error description e)))
             else Some (description <- lift (getitem type_to_string image_type) ;;
                        ret (Pending (loading_error image description e)))))
    (λ e, if is_class KeyError e
          then Some (ending <- lift (getitem_last (split image)) ;;
                     ret (Pending (type_error ending image (dict_values X type_to_string))))
          else None).

(** Lines 167-173: the brute force over [loaders], then [raise err]. *)
Fixpoint brute_force (loaders : list Loader) (image : string) (err : Exn) : M Loaded :=
  match loaders with
  | [] => raise err
  | loader :: rest =>
      try_except (call loader image) (λ _, Some (brute_force rest image err))
  end.

Definition load (image : string) : M Loaded :=
  present <- path_exists image ;;
  if negb present then raise (missing_error image)
  else
    flow <- normal_loading image ;;
    match flow with
    | Returned r => ret r
    | Pending err => brute_force load_fallback_order image err
    end.

(** The state after every loader of [loaders] has failed in turn from
    [st]; [None] when one of them returns. *)
Fixpoint all_fail (loaders : list Loader) (image : string) (st : State) : option State :=
  match loaders with
  | [] => Some st
  | loader :: rest =>
      match call loader image st with
      | (Raise _, st') => all_fail rest image st'
      | (Ok _, _) => None
      end
  end.

(** The state once [load] has asked whether [image] exists. *)
Definition after_exists (image : string) (st : State) : State :=
  mkState (world st) (trace st ++ [EvExists image]).

(** [m] makes no call of the kind [view] picks. *)
Definition silent {B A} (view : Event → option B) (m : M A) : Prop :=
  ∀ st r st', m st = (r, st') → omap view (trace st') = omap view (trace st).

End Load.

Arguments Returned {X} r.
Arguments Pending {X} err.
Arguments mkState {X} world trace.
Arguments world {X} _.
Arguments trace {X} _.
Arguments after_exists {X} image st.
Arguments silent {X B A} view m.

(** ** A concrete installation *)

Module Scenario.

(** What the third-party modules answer, whatever the file. *)
Record Setup := mkSetup {
  on_disk : bool;
  nibabel_import : Res ();
  nibabel_image : Res (ndarray Z);
  dicom_import : Res ();
  dicom_plain_read : Res (ndarray Z);
  dicom_forced_read : Res (ndarray Z);
  itk_import : Res ();
  itk_image_type : option ();
  itk_image : Res (ndarray Z)
}.

(** The world counts the calls into third-party modules; an image object
    is its pixel array. *)
Definition installation (s : Setup) : Externals := {|
  World := nat;
  Scalar := Z;
  NibabelImage := ndarray Z;
  DicomDataset := ndarray Z;
  ItkImageType := ();
  ItkImage := ndarray Z;
  os_path_exists := λ _ _, on_disk s;
  import_nibabel := λ w, (nibabel_import s, S w);
  nibabel_load := λ _ w, (nibabel_image s, S w);
  nibabel_get_data := λ img w, (Ok img, S w);
  import_dicom := λ w, (dicom_import s, S w);
  dicom_read_file := λ _ force w,
    ((if force then dicom_forced_read s else dicom_plain_read s), S w);
  dicom_pixel_array := λ img w, (Ok img, S w);
  import_itk := λ w, (itk_import s, S w);
  import_itku := λ w, (Ok (), S w);
  itku_getImageTypeFromFile := λ _ w, (Ok (itk_image_type s), S w);
  itk_read := λ _ _ w, (itk_image s, S w);
  itku_getArrayFromImage := λ img w, (Ok img, S w);
  itk_new_graft := λ img w, (Ok img, S w);
  itk_pointer_new_graft := λ img w, (Ok img, S w);
  dict_values := λ d, (map_to_list d).*2
|}.

Definition no_module : Exn := mkExn ImportError "No module named dicom".
Definition bad_file : Exn := mkExn OtherException "not a recognised file".
Definition bad_dicom : Exn := mkExn InvalidDicomError "File is missing 'DICM' marker".

(** A 2 x 1 x 3 volume and a 2 x 3 slice, in C order. *)
Definition volume : ndarray Z :=
  mk_ndarray [(2, 3%Z); (1, 3%Z); (3, 1%Z)] 0 [11; 12; 13; 21; 22; 23]%Z.
Definition slice : ndarray Z :=
  mk_ndarray [(2, 3%Z); (3, 1%Z)] 0 [11; 12; 13; 21; 22; 23]%Z.

(** Nothing is installed and no loader reads the file. *)
Definition nothing_works : Setup :=
  mkSetup true (Raise bad_file) (Raise bad_file) (Raise no_module)
    (Raise bad_file) (Raise bad_file) (Raise bad_file) None (Raise bad_file).

(** Only nibabel reads the file. *)
Definition only_nibabel : Setup :=
  mkSetup true (Ok ()) (Ok volume) (Raise no_module)
    (Raise bad_file) (Raise bad_file) (Ok ()) None (Raise bad_file).

(** pydicom reads the file, but only when forced. *)
Definition dicom_when_forced : Setup :=
  mkSetup true (Ok ()) (Raise bad_file) (Ok ())
    (Raise bad_dicom) (Ok slice) (Ok ()) None (Raise bad_file).

(** The file is not there. *)
Definition no_file : Setup :=
  mkSetup false (Ok ()) (Ok volume) (Ok ())
    (Ok slice) (Ok slice) (Ok ()) (Some ()) (Ok slice).

Definition start (s : Setup) : State (installation s) := mkState (0 : World (installation s)) [].

(** pydicom is installed but cannot read the file, though a forced read
    would; itk finds no image type. *)
Definition dicom_unreadable : Setup :=
  mkSetup true (Ok ()) (Raise bad_file) (Ok ())
    (Raise bad_file) (Ok slice) (Ok ()) None (Raise bad_file).

(** Everything is installed and reads the file. *)
Definition all_installed : Setup :=
  mkSetup true (Ok ()) (Ok volume) (Ok ())
    (Ok slice) (Ok slice) (Ok ()) (Some ()) (Ok slice).

End Scenario.

(** * Properties *)

(** ** Strings *)

Section StringFacts.

Lemma app_cons (c : ascii) (s t : string) : String c s +:+ t = String c (s +:+ t).
Proof. reflexivity. Qed.

Lemma app_empty_r (s : string) : s +:+ EmptyString = s.
Proof. induction s as [|c s IH]; [done |]. by rewrite app_cons, IH. Qed.

Lemma app_assoc_str (a b c : string) : (a +:+ b) +:+ c = a +:+ b +:+ c.
Proof. induction a as [|x a IH]; [done |]. by rewrite !app_cons, IH. Qed.

Lemma split_length (s : string) : length (split s) = S (count_dots s).
Proof.
  induction s as [|c s IH]; simpl; [done |].
  destruct (is_dot c); simpl; [by rewrite IH |].
  destruct (split s) as [|seg segs]; simpl in *; done.
Qed.

Lemma join_cons (sep seg : string) (segs : list string) :
  segs ≠ [] → join sep (seg :: segs) = seg +:+ sep +:+ join sep segs.
Proof. destruct segs; done. Qed.

Lemma is_dot_true (c : ascii) : is_dot c = true → c = dot.
Proof. unfold is_dot. by intros ?%bool_decide_eq_true. Qed.

(** Joining the segments gives the string back. *)
Lemma join_split (s : string) : join "." (split s) = s.
Proof.
  induction s as [|c s IH]; simpl; [done |].
  pose proof (split_length s) as Hlen.
  destruct (is_dot c) eqn:Hc.
  - apply is_dot_true in Hc as ->.
    destruct (split s) as [|seg segs]; [done |].
    rewrite join_cons by done. by rewrite IH.
  - destruct (split s) as [|seg segs]; [done |].
    destruct segs as [|seg' segs]; simpl in *; [by rewrite IH |].
    by rewrite <- IH.
Qed.

Lemma after_dot_cons (k : nat) (c : ascii) (s : string) :
  after_dot k (String c s) =
    if (k <=? count_dots s)%nat then after_dot k s
    else if is_dot c && (S (count_dots s) =? k)%nat then s
    else String c s.
Proof. reflexivity. Qed.

Lemma after_dot_few (k : nat) (s : string) : count_dots s < k → after_dot k s = s.
Proof.
  destruct s as [|c s]; [done |]. intros Hk.
  change (count_dots (String c s))
    with ((if is_dot c then 1 else 0) + count_dots s) in Hk.
  rewrite after_dot_cons.
  destruct (Nat.leb_spec k (count_dots s)); [lia |].
  destruct (Nat.eqb_spec (S (count_dots s)) k);
    [destruct (is_dot c); [lia | done] |].
  by rewrite andb_false_r.
Qed.

(** The last [k] segments, joined, are the text after the [k]-th dot
    from the end. *)
Lemma join_last_segments (k : nat) (s : string) :
  0 < k → join "." (drop (length (split s) - k) (split s)) = after_dot k s.
Proof.
  intros Hk. induction s as [|c s IH].
  - simpl. replace (1 - k) with 0 by lia. done.
  - pose proof (split_length s) as Hlen.
    pose proof (join_split (String c s)) as Hjoin.
    rewrite after_dot_cons.
    destruct (Nat.leb_spec k (count_dots s)) as [Hle|Hgt].
    + rewrite <- IH. simpl. destruct (is_dot c).
      * simpl. rewrite Hlen.
        replace (S (S (count_dots s)) - k) with (S (S (count_dots s) - k)) by lia.
        done.
      * destruct (split s) as [|seg segs]; [done |].
        simpl in Hlen. simpl length.
        replace (S (length segs) - k) with (S (length segs - k)) by lia.
        done.
    + destruct (Nat.eqb_spec (S (count_dots s)) k) as [Heq|Hne].
      * simpl in Hjoin |- *. destruct (is_dot c) eqn:Hc.
        -- simpl length. rewrite Hlen, <- Heq.
           replace (S (S (count_dots s)) - S (count_dots s)) with 1 by lia.
           rewrite andb_true_l. apply join_split.
        -- rewrite andb_false_l.
           destruct (split s) as [|seg segs]; [done |].
           simpl in Hlen. simpl length.
           replace (S (length segs) - k) with 0 by lia. done.
      * rewrite andb_false_r. simpl in Hjoin |- *. destruct (is_dot c).
        -- simpl length. rewrite Hlen.
           replace (S (S (count_dots s)) - k) with 0 by lia. done.
        -- destruct (split s) as [|seg segs]; [done |].
           simpl in Hlen. simpl length.
           replace (S (length segs) - k) with 0 by lia. done.
Qed.

Lemma last_is_drop {A} (l : list A) (x : A) :
  last l = Some x → drop (length l - 1) l = [x].
Proof.
  induction l as [|y l IH]; [done |].
  destruct l as [|z l]; simpl in *; [by intros [= ->] |].
  intros H. specialize (IH H). by rewrite Nat.sub_0_r in IH.
Qed.

(** [s.split('.')[-1]] is the text after the last dot. *)
Lemma getitem_last_split (s : string) : getitem_last (split s) = Ok (after_dot 1 s).
Proof.
  unfold getitem_last.
  pose proof (split_length s) as Hlen.
  pose proof (join_last_segments 1 s) as Hjoin.
  destruct (last (split s)) as [x|] eqn:Hlast.
  - rewrite (last_is_drop _ _ Hlast) in Hjoin. simpl in Hjoin.
    rewrite Hjoin by lia. done.
  - apply last_None in Hlast. rewrite Hlast in Hlen. done.
Qed.

Lemma lower_app (a b : string) : lower (a +:+ b) = lower a +:+ lower b.
Proof. induction a as [|c a IH]; [done |]. rewrite app_cons. simpl. by rewrite IH. Qed.

Lemma lower_join (segs : list string) :
  join "." (lower <$> segs) = lower (join "." segs).
Proof.
  induction segs as [|seg segs IH]; [done |].
  destruct segs as [|seg' segs]; [done |].
  rewrite fmap_cons, !join_cons by done.
  rewrite IH, !lower_app. done.
Qed.

(** The compound the code builds is the lowercased text after the second
    dot from the end. *)
Lemma compound_suffix (s : string) :
  join "." (lower <$> slice_last_two (split s)) = lower (after_dot 2 s).
Proof.
  unfold slice_last_two. rewrite lower_join, join_last_segments by lia. done.
Qed.

End StringFacts.

(** The suffixes of a few paths, as the code computes them. *)
Example split_compound : split "/data/t1.IMG.gz" = ["/data/t1"; "IMG"; "gz"].
Proof. reflexivity. Qed.

Example after_last_dot : after_dot 1 "/data/t1.IMG.gz" = "gz".
Proof. reflexivity. Qed.

Example after_second_last_dot : after_dot 2 "/data/t1.IMG.gz" = "IMG.gz".
Proof. reflexivity. Qed.

Example after_dot_without_dot : after_dot 1 "dcm" = "dcm" ∧ after_dot 2 "scan.dcm" = "scan.dcm".
Proof. split; reflexivity. Qed.

Example determine_suffix_compound : determine_suffix "/data/t1.IMG.gz" = Ok "img.gz".
Proof. vm_compute. reflexivity. Qed.

Example determine_suffix_unknown :
  determine_suffix "notes.tar.gz" = Raise (mkExn KeyError EmptyString).
Proof. vm_compute. reflexivity. Qed.

(** ** The dictionaries *)

Ltac list_cases H :=
  repeat (apply elem_of_cons in H as [H|H]; [simplify_eq |]);
  try (by apply elem_of_nil in H).

(** Every type a suffix maps to has a loader and a description, so the
    subscripts on [type_to_function] and [type_to_string] never raise. *)
Lemma type_registered (suffix image_type : string) :
  suffix_to_type !! suffix = Some image_type →
  ∃ loader description,
    type_to_function !! image_type = Some loader
    ∧ type_to_string !! image_type = Some description.
Proof.
  intros H. apply elem_of_list_to_map_2 in H.
  list_cases H; eexists _, _; split; vm_compute; reflexivity.
Qed.

Lemma has_key_lookup {V} (d : gmap string V) (k : string) :
  has_key d k = true ↔ is_Some (d !! k).
Proof. unfold has_key. apply bool_decide_eq_true. Qed.

Lemma has_key_false {V} (d : gmap string V) (k : string) :
  has_key d k = false ↔ d !! k = None.
Proof.
  unfold has_key. rewrite bool_decide_eq_false, eq_None_not_Some. done.
Qed.

(** The suffix the code settles on, by the two lookups. *)
Lemma determine_suffix_spec (image : string) :
  determine_suffix image =
    if has_key suffix_to_type (lower (after_dot 1 image))
    then Ok (lower (after_dot 1 image))
    else if has_key suffix_to_type (lower (after_dot 2 image))
    then Ok (lower (after_dot 2 image))
    else Raise (mkExn KeyError EmptyString).
Proof.
  unfold determine_suffix. rewrite getitem_last_split. unfold res_bind.
  rewrite compound_suffix. done.
Qed.

Lemma determine_suffix_key (image suffix : string) :
  determine_suffix image = Ok suffix → is_Some (suffix_to_type !! suffix).
Proof.
  rewrite determine_suffix_spec.
  destruct (has_key _ (lower (after_dot 1 image))) eqn:H1.
  { intros [= <-]. by apply has_key_lookup. }
  destruct (has_key _ (lower (after_dot 2 image))) eqn:H2; [| done].
  intros [= <-]. by apply has_key_lookup.
Qed.

(** Routing either fails with the [KeyError] of line 149, or gives a type
    that has a loader and a description. *)
Lemma routing_cases (image : string) :
  routing image = Raise (mkExn KeyError EmptyString)
  ∨ ∃ suffix image_type loader description,
      determine_suffix image = Ok suffix
      ∧ suffix_to_type !! suffix = Some image_type
      ∧ type_to_function !! image_type = Some loader
      ∧ type_to_string !! image_type = Some description
      ∧ routing image = Ok (image_type, loader).
Proof.
  unfold routing, classify.
  destruct (determine_suffix image) as [suffix|e] eqn:Hs.
  - right. destruct (determine_suffix_key _ _ Hs) as [image_type Ht].
    destruct (type_registered _ _ Ht) as (loader & description & Hf & Hd).
    exists suffix, image_type, loader, description.
    unfold res_bind, getitem. rewrite Ht, Hf. done.
  - left. rewrite determine_suffix_spec in Hs.
    repeat destruct (has_key _ _); simplify_eq. done.
Qed.

(** C3: classification looks up the lowercased text after the last dot;
    if that is no key of [suffix_to_type] it looks up the lowercased
    compound of the last two dot-separated segments; if that is no key
    either the outcome is the [KeyError] that stands for no type found,
    and nothing else. *)
Theorem classify_by_suffix (image : string) :
  classify image =
    match suffix_to_type !! lower (after_dot 1 image) with
    | Some image_type => Ok image_type
    | None =>
        match suffix_to_type !! lower (after_dot 2 image) with
        | Some image_type => Ok image_type
        | None => Raise (mkExn KeyError EmptyString)
        end
    end.
Proof.
  unfold classify. rewrite determine_suffix_spec.
  destruct (has_key _ (lower (after_dot 1 image))) eqn:H1.
  { apply has_key_lookup in H1 as [t Ht]. unfold res_bind, getitem. by rewrite Ht. }
  apply has_key_false in H1. rewrite H1.
  destruct (has_key _ (lower (after_dot 2 image))) eqn:H2.
  { apply has_key_lookup in H2 as [t Ht]. unfold res_bind, getitem. by rewrite Ht. }
  apply has_key_false in H2. rewrite H2. done.
Qed.

(** C4: a path classified by one of nii, nii.gz, hdr, img, img.gz is
    routed to the nibabel loader, one classified by dcm or dicom to the
    pydicom loader, and one classified by any other recognized suffix
    (mhd, mha, nrrd, nhdr, png, bmp, tif, tiff, jpg, jpeg) to the itk
    loader; there is no further recognized suffix. *)
Theorem routing_by_suffix (image suffix : string) :
  determine_suffix image = Ok suffix →
  (suffix ∈ nibabel_suffixes → ∃ image_type, routing image = Ok (image_type, load_nibabel))
  ∧ (suffix ∈ pydicom_suffixes → ∃ image_type, routing image = Ok (image_type, load_pydicom))
  ∧ (suffix ∈ itk_suffixes → ∃ image_type, routing image = Ok (image_type, load_itk))
  ∧ suffix ∈ nibabel_suffixes ++ pydicom_suffixes ++ itk_suffixes.
Proof.
  intros Hs. destruct (determine_suffix_key _ _ Hs) as [image_type Ht].
  unfold routing, classify. rewrite Hs.
  apply elem_of_list_to_map_2 in Ht.
  list_cases Ht;
    (split_and!;
     [ intros Hin; first [ by eexists | exfalso; list_cases Hin ] ..
     | vm_compute; repeat (first [ by left | right ]) ]).
Qed.

Lemma routing_by_suffix_witness :
  determine_suffix "/data/t1.IMG.GZ" = Ok "img.gz"
  ∧ ∃ image_type, routing "/data/t1.IMG.GZ" = Ok (image_type, load_nibabel).
Proof.
  split; [vm_compute; reflexivity |].
  apply (routing_by_suffix "/data/t1.IMG.GZ" "img.gz");
    [vm_compute; reflexivity | by vm_compute; repeat (first [ by left | right ])].
Defined.

(** ** Arrays *)

Section ArrayFacts.

Context {E : Type}.
Implicit Types (a : ndarray E) (ds : list (nat * Z)) (idx sh : list nat).

Lemma locate_nil_r ds : ds ≠ [] → locate ds [] = None.
Proof. destruct ds as [|[n stride] ds]; done. Qed.

Lemma locate_nil_l idx : idx ≠ [] → locate [] idx = None.
Proof. destruct idx; done. Qed.

(** One more axis at the end of the shape and of the index. *)
Lemma locate_snoc ds idx (n : nat) (stride : Z) (i : nat) :
  locate (ds ++ [(n, stride)]) (idx ++ [i]) =
    p ← locate ds idx;
    if (i <? n)%nat then Some (p + Z.of_nat i * stride)%Z else None.
Proof.
  revert idx. induction ds as [|[m stride'] ds IH]; intros [|j idx]; simpl.
  - destruct (i <? n)%nat; simpl; [f_equal; lia | done].
  - destruct (j <? n)%nat; [| done]. by destruct idx.
  - destruct (i <? m)%nat; [| done]. by destruct ds as [|[??] ?].
  - destruct (j <? m)%nat; [| done]. rewrite IH.
    destruct (locate ds idx) as [p|]; simpl; [| done].
    destruct (i <? n)%nat; simpl; [f_equal; lia | done].
Qed.

Lemma locate_reverse ds idx : locate (reverse ds) (reverse idx) = locate ds idx.
Proof.
  revert idx. induction ds as [|[n stride] ds IH]; intros [|i idx].
  - done.
  - rewrite reverse_cons. apply locate_nil_l. by destruct (reverse idx).
  - rewrite reverse_cons. apply locate_nil_r. by destruct (reverse ds).
  - rewrite !reverse_cons, locate_snoc, IH. simpl.
    destruct (locate ds idx) as [p|]; simpl; [| by destruct (i <? n)%nat].
    destruct (i <? n)%nat; simpl; [f_equal; lia | done].
Qed.

Lemma locate_squeeze ds idx :
  locate (filter (λ d : nat * Z, d.1 ≠ 1) ds) idx
  = locate ds (unsqueeze_index ds.*1 idx).
Proof.
  revert idx. induction ds as [|[n stride] ds IH]; intros idx; [done |].
  rewrite fmap_cons. simpl unsqueeze_index. destruct (decide (n = 1)) as [->|Hn].
  - rewrite filter_cons_False by (simpl; tauto). simpl. rewrite <- IH.
    destruct (locate _ idx) as [p|]; simpl; [f_equal; lia | done].
  - rewrite filter_cons_True by done.
    destruct idx as [|i idx]; [done |]. simpl. by rewrite IH.
Qed.

(** [squeeze] keeps exactly the axes whose extent is not one. *)
Lemma shape_squeeze a : shape (squeeze a) = filter (λ n, n ≠ 1) (shape a).
Proof.
  unfold shape, squeeze. simpl. induction (dims a) as [|[n stride] ds IH]; [done |].
  rewrite fmap_cons. simpl. destruct (decide (n = 1)) as [->|Hn].
  - rewrite !filter_cons_False by (simpl; tauto). done.
  - rewrite !filter_cons_True by done. rewrite fmap_cons, IH. done.
Qed.

(** and reads the items of [a] that lie at index zero on the others. *)
Lemma item_squeeze a idx :
  item (squeeze a) idx = item a (unsqueeze_index (shape a) idx).
Proof. unfold item, squeeze, shape. simpl. by rewrite locate_squeeze. Qed.

Lemma shape_transpose a : shape (transpose a) = reverse (shape a).
Proof. unfold shape, transpose. simpl. by rewrite fmap_reverse. Qed.

Lemma item_transpose a idx : item (transpose a) idx = item a (reverse idx).
Proof.
  unfold item, transpose. simpl.
  by rewrite <- (locate_reverse (reverse (dims a))), reverse_involutive.
Qed.

Lemma squeeze_no_singleton a : 1 ∉ shape (squeeze a).
Proof. rewrite shape_squeeze. intros [H _]%list_elem_of_filter. done. Qed.

End ArrayFacts.

(** ** Computations and their traces *)

Section TraceFacts.

Variable X : Externals.
Context {B : Type} (view : Event → option B).

Lemma silent_ret {A} (a : A) : silent view (ret X a).
Proof. by intros st r st' [= <- <-]. Qed.

Lemma silent_raise {A} (e : Exn) : silent view (raise X (A := A) e).
Proof. by intros st r st' [= <- <-]. Qed.

Lemma silent_lift {A} (r : Res A) : silent view (lift X r).
Proof. by intros st r' st' [= <- <-]. Qed.

Lemma silent_extern {A} (f : World X → Res A * World X) : silent view (extern X f).
Proof.
  intros st r st'. unfold extern. destruct (f (world st)) as [r' w].
  by intros [= <- <-].
Qed.

Lemma silent_emit (ev : Event) : view ev = None → silent view (emit X ev).
Proof.
  intros Hev st r st' [= <- <-]. simpl.
  rewrite omap_app. simpl. rewrite Hev. apply app_nil_r.
Qed.

Lemma silent_bind {A C} (m : M X A) (k : A → M X C) :
  silent view m → (∀ a, silent view (k a)) → silent view (bind X m k).
Proof.
  intros Hm Hk st r st' H. unfold bind in H.
  destruct (m st) as [[a|e] st1] eqn:Hst.
  - rewrite (Hk _ _ _ _ H). eapply Hm, Hst.
  - injection H as <- <-. eapply Hm, Hst.
Qed.

Lemma silent_try {A} (m : M X A) (h : Exn → option (M X A)) :
  silent view m → (∀ e k, h e = Some k → silent view k) →
  silent view (try_except X m h).
Proof.
  intros Hm Hh st r st' H. unfold try_except in H.
  destruct (m st) as [[a|e] st1] eqn:Hst.
  - injection H as <- <-. eapply Hm, Hst.
  - destruct (h e) as [k|] eqn:He.
    + rewrite (Hh _ _ He _ _ _ H). eapply Hm, Hst.
    + injection H as <- <-. eapply Hm, Hst.
Qed.

End TraceFacts.

Section LoaderTraces.

Variable X : Externals.
Context {B : Type} (view : Event → option B).

Lemma nibabel_silent (image : string) : silent view (__load_nibabel X image).
Proof.
  unfold __load_nibabel.
  repeat (apply silent_bind; [apply silent_extern | intros ?]).
  apply silent_ret.
Qed.

Lemma itk_silent (image : string) : silent view (__load_itk X image).
Proof.
  unfold __load_itk.
  do 2 (apply silent_bind; [apply silent_extern | intros ?]).
  apply silent_bind; [apply silent_extern | intros [ty|]]; [| apply silent_raise].
  do 2 (apply silent_bind; [apply silent_extern | intros ?]).
  apply silent_bind; [| intros ?; apply silent_ret].
  apply silent_try; [apply silent_extern |].
  intros e k [= <-]. apply silent_extern.
Qed.

Lemma dicom_read_silent (image : string) (force : bool) :
  view (EvDicomRead image force) = None → silent view (dicom_read X image force).
Proof.
  intros Hv. unfold dicom_read.
  apply silent_bind; [by apply silent_emit | intros ?; apply silent_extern].
Qed.

Lemma pydicom_silent (image : string) :
  (∀ force, view (EvDicomRead image force) = None) →
  silent view (__load_pydicom X image).
Proof.
  intros Hv. unfold __load_pydicom.
  apply silent_bind; [apply silent_extern | intros ?].
  apply silent_bind.
  - apply silent_try; [by apply dicom_read_silent |].
    intros e k. destruct (is_class _ e); [| done].
    intros [= <-]. by apply dicom_read_silent.
  - intros img. apply silent_bind; [apply silent_extern | intros ?; apply silent_ret].
Qed.

(** A loader function makes no call but DICOM reads. *)
Lemma loader_function_silent (loader : Loader) (image : string) :
  (∀ force, view (EvDicomRead image force) = None) →
  silent view (loader_function X loader image).
Proof.
  intros Hv. destruct loader; simpl.
  - apply nibabel_silent.
  - by apply pydicom_silent.
  - apply itk_silent.
Qed.

Lemma call_silent (loader : Loader) (image : string) :
  view (EvLoader loader image) = None →
  (∀ force, view (EvDicomRead image force) = None) →
  silent view (call X loader image).
Proof.
  intros Hl Hd. unfold call.
  apply silent_bind; [by apply silent_emit | intros ?].
  by apply loader_function_silent.
Qed.

End LoaderTraces.

(** ** [load] *)

Section LoadFacts.

Variable X : Externals.
Implicit Types (image : string) (st : State X) (err e : Exn) (loader : Loader).

(** A loader call shows in the trace as one loader call. *)
Lemma call_loader_calls loader image st (r : Res (Loaded X)) st' :
  call X loader image st = (r, st') →
  loader_calls (trace st') = loader_calls (trace st) ++ [(loader, image)].
Proof.
  unfold call, bind. simpl. intros H.
  apply (loader_function_silent X as_loader_call) in H; [| done].
  unfold loader_calls. rewrite H. simpl. by rewrite omap_app.
Qed.

(** [load], by the existence check and the outcome of the normal loading. *)
Lemma load_unfold image st :
  load X image st =
    if os_path_exists X image (world st) then
      match normal_loading X image (after_exists image st) with
      | (Ok (Returned r), st1) => (Ok r, st1)
      | (Ok (Pending err), st1) => brute_force X load_fallback_order image err st1
      | (Raise e, st1) => (Raise e, st1)
      end
    else (Raise (missing_error image), after_exists image st).
Proof.
  unfold load, bind, path_exists. simpl.
  destruct (os_path_exists X image (world st)); simpl; [| done].
  fold (after_exists image st).
  by destruct (normal_loading X image (after_exists image st)) as [[[r|err]|e] st1].
Qed.

(** The normal loading of a routed path returns what the loader returns,
    or binds the error that fits the loader's failure. *)
Lemma normal_loading_routed image st (image_type description : string) loader :
  routing image = Ok (image_type, loader) →
  type_to_string !! image_type = Some description →
  normal_loading X image st =
    match call X loader image st with
    | (Ok r, st') => (Ok (Returned r), st')
    | (Raise e, st') =>
        (Ok (Pending (if is_class ImportError e
                      then dependency_error description e
                      else loading_error image description e)), st')
    end.
Proof.
  intros Hr Hd. unfold normal_loading, try_except, bind, lift. rewrite Hr.
  destruct (call X loader image st) as [[r|e] st']; [done |].
  unfold getitem. rewrite Hd. by destruct (is_class ImportError e).
Qed.

(** The normal loading of a path that is not routed binds the type error. *)
Lemma normal_loading_unrouted image st e :
  routing image = Raise e →
  normal_loading X image st =
    (Ok (Pending (type_error (after_dot 1 image) image (dict_values X type_to_string))), st).
Proof.
  intros Hr. destruct (routing_cases image) as [Hk|(?&?&?&?&_&_&_&_&Hok)];
    [| congruence].
  unfold normal_loading, try_except, bind, lift. rewrite Hk.
  change (is_class KeyError (mkExn KeyError EmptyString)) with true. simpl.
  by rewrite getitem_last_split.
Qed.

(** The normal loading never raises: it returns or binds [err]. *)
Lemma normal_loading_flow image st :
  ∃ flow st', normal_loading X image st = (Ok flow, st').
Proof.
  destruct (routing_cases image) as [Hk|(?&ty&l&d&_&_&_&Hd&Hok)].
  - rewrite (normal_loading_unrouted _ _ _ Hk). eauto.
  - rewrite (normal_loading_routed _ _ _ _ _ Hok Hd).
    destruct (call X l image st) as [[r|e] st']; eauto.
Qed.

Lemma brute_force_all_fail (loaders : list Loader) image err st st' :
  all_fail X loaders image st = Some st' →
  brute_force X loaders image err st = (Raise err, st').
Proof.
  revert st. induction loaders as [|loader rest IH]; intros st; simpl.
  - by intros [= <-].
  - unfold try_except.
    destruct (call X loader image st) as [[r|e] st1]; [done |]. apply IH.
Qed.

Lemma normal_loading_exists_silent image :
  silent as_exists_check (normal_loading X image).
Proof.
  intros st r st'.
  destruct (routing_cases image) as [Hk|(?&ty&l&d&_&_&_&Hd&Hok)].
  - rewrite (normal_loading_unrouted _ _ _ Hk). by intros [= <- <-].
  - rewrite (normal_loading_routed _ _ _ _ _ Hok Hd).
    destruct (call X l image st) as [[r'|e] st1] eqn:Hc; intros [= <- <-];
      by apply (call_silent X as_exists_check) in Hc.
Qed.

Lemma brute_force_exists_silent (loaders : list Loader) image err :
  silent as_exists_check (brute_force X loaders image err).
Proof.
  induction loaders as [|loader rest IH]; simpl; [apply silent_raise |].
  apply silent_try; [by apply call_silent |]. by intros e k [= <-].
Qed.

(** Whatever happens, [load] asks once whether the file exists. *)
Lemma load_exists_checks image st :
  exists_checks (trace (load X image st).2)
  = exists_checks (trace st) ++ [image].
Proof.
  assert (exists_checks (trace (after_exists image st))
          = exists_checks (trace st) ++ [image]) as Hstart.
  { unfold exists_checks. simpl. by rewrite omap_app. }
  rewrite load_unfold. destruct (os_path_exists X image (world st)); [| done].
  destruct (normal_loading X image (after_exists image st))
    as [[[r|err]|e] st1] eqn:Hn;
    apply normal_loading_exists_silent in Hn.
  - simpl. unfold exists_checks. by rewrite Hn.
  - destruct (brute_force X load_fallback_order image err st1) as [r st2] eqn:Hb.
    apply brute_force_exists_silent in Hb. simpl.
    unfold exists_checks. by rewrite Hb, Hn.
  - simpl. unfold exists_checks. by rewrite Hn.
Qed.

End LoadFacts.

(** ** The dispatch policy of [load] *)

Section Dispatch.

Variable X : Externals.
Implicit Types (image : string) (st : State X) (err e : Exn) (loader : Loader).

(** C5: when the path does not exist, [load] raises at once the
    ImageLoadingError that says so; the only call made is the existence
    check, so no loader is invoked, primary or fallback.  And in every run
    of [load], successful or not, the trace holds one existence check: the
    brute force does not repeat it. *)
Theorem load_missing_file image st :
  os_path_exists X image (world st) = false →
  load X image st
  = (Raise (mkExn ImageLoadingError
              ("The supplied image " +:+ image +:+ " does not exist.")),
     mkState (world st) (trace st ++ [EvExists image]))
  ∧ loader_calls (trace (load X image st).2) = loader_calls (trace st)
  ∧ ∀ st0 : State X,
      exists_checks (trace (load X image st0).2) = exists_checks (trace st0) ++ [image].
Proof.
  intros Hmissing. rewrite load_unfold, Hmissing. split_and!.
  - done.
  - unfold loader_calls. simpl. rewrite omap_app. simpl. apply app_nil_r.
  - apply load_exists_checks.
Qed.

(** C6: when classification succeeds and the routed loader returns,
    [load] returns that loader's pair in the state the loader left, and
    the routed call is the only loader call made. *)
Theorem load_returns_primary image st (image_type : string) loader (r : Loaded X) st1 :
  os_path_exists X image (world st) = true →
  routing image = Ok (image_type, loader) →
  call X loader image (after_exists image st) = (Ok r, st1) →
  load X image st = (Ok r, st1)
  ∧ loader_calls (trace st1) = loader_calls (trace st) ++ [(loader, image)].
Proof.
  intros Hexists Hr Hcall.
  destruct (routing_cases image) as [Hk|(?&ty&l&d&_&_&_&Hd&Hok)]; [congruence |].
  rewrite Hr in Hok. injection Hok as <- <-. split.
  - rewrite load_unfold, Hexists.
    by rewrite (normal_loading_routed _ _ _ _ _ _ Hr Hd), Hcall.
  - rewrite (call_loader_calls _ _ _ _ _ _ Hcall).
    unfold loader_calls. simpl. rewrite omap_app. simpl. by rewrite app_nil_r.
Qed.

(** C1: when the normal loading has bound a pending error and the three
    fallback loaders fail in turn, [load] raises that pending error, and
    no other: an ImageTypeError when the path was not classified, else a
    DependencyError when the routed loader failed with an ImportError and
    an ImageLoadingError when it failed with anything else.  What the
    fallback loaders raised plays no part. *)
Theorem load_raises_pending_error image st st1 st2 err :
  os_path_exists X image (world st) = true →
  normal_loading X image (after_exists image st) = (Ok (Pending err), st1) →
  all_fail X load_fallback_order image st1 = Some st2 →
  load X image st = (Raise err, st2)
  ∧ match routing image with
    | Raise _ => exn_class err = ImageTypeError
    | Ok (image_type, loader) =>
        ∃ e, call X loader image (after_exists image st) = (Raise e, st1)
             ∧ exn_class err
               = if is_class ImportError e then DependencyError else ImageLoadingError
    end.
Proof.
  intros Hexists Hn Hfail. split.
  - rewrite load_unfold, Hexists, Hn. by apply brute_force_all_fail.
  - destruct (routing_cases image) as [Hk|(?&ty&l&d&_&_&_&Hd&Hok)].
    + rewrite Hk. rewrite (normal_loading_unrouted _ _ _ _ Hk) in Hn.
      by injection Hn as <- <-.
    + rewrite Hok. rewrite (normal_loading_routed _ _ _ _ _ _ Hok Hd) in Hn.
      destruct (call X l image (after_exists image st)) as [[r|e] st'];
        [done |].
      injection Hn as <- <-. exists e. split; [done |].
      by destruct (is_class ImportError e).
Qed.

(** C2: when the normal loading has bound a pending error, [load] calls
    the nibabel loader, then the pydicom loader, then the itk loader,
    whichever loader the routing had tried, each in the state the one
    before left; it returns the pair of the first that returns, and the
    pending error is raised only when none does. *)
Theorem load_falls_back_in_order image st st1 err :
  os_path_exists X image (world st) = true →
  normal_loading X image (after_exists image st) = (Ok (Pending err), st1) →
  match call X load_nibabel image st1 with
  | (Ok r, st2) =>
      load X image st = (Ok r, st2)
      ∧ loader_calls (trace st2)
        = loader_calls (trace st1) ++ [(load_nibabel, image)]
  | (Raise _, st2) =>
      match call X load_pydicom image st2 with
      | (Ok r, st3) =>
          load X image st = (Ok r, st3)
          ∧ loader_calls (trace st3)
            = loader_calls (trace st1)
              ++ [(load_nibabel, image); (load_pydicom, image)]
      | (Raise _, st3) =>
          match call X load_itk image st3 with
          | (Ok r, st4) =>
              load X image st = (Ok r, st4)
              ∧ loader_calls (trace st4)
                = loader_calls (trace st1)
                  ++ [(load_nibabel, image); (load_pydicom, image); (load_itk, image)]
          | (Raise _, st4) =>
              load X image st = (Raise err, st4)
              ∧ loader_calls (trace st4)
                = loader_calls (trace st1)
                  ++ [(load_nibabel, image); (load_pydicom, image); (load_itk, image)]
          end
      end
  end.
Proof.
  intros Hexists Hn. rewrite load_unfold, Hexists, Hn.
  unfold load_fallback_order. simpl. unfold try_except.
  destruct (call X load_nibabel image st1) as [[r|e1] st2] eqn:H1;
    apply call_loader_calls in H1; [done |].
  destruct (call X load_pydicom image st2) as [[r|e2] st3] eqn:H2;
    apply call_loader_calls in H2.
  { split; [done |]. by rewrite H2, H1, <- app_assoc. }
  destruct (call X load_itk image st3) as [[r|e3] st4] eqn:H3;
    apply call_loader_calls in H3;
    (split; [done |]); by rewrite H3, H2, H1, <- !app_assoc.
Qed.

End Dispatch.

(** *** The policy at work in the concrete installations *)

Lemma load_missing_file_witness :
  load (Scenario.installation Scenario.no_file) "missing.nii"
    (Scenario.start Scenario.no_file)
  = (Raise (mkExn ImageLoadingError "The supplied image missing.nii does not exist."),
     mkState (X := Scenario.installation Scenario.no_file) 0%nat [EvExists "missing.nii"]).
Proof.
  apply (load_missing_file (Scenario.installation Scenario.no_file) "missing.nii"
           (Scenario.start Scenario.no_file)).
  reflexivity.
Defined.

Lemma load_returns_primary_witness :
  routing "scan.nii" = Ok ("nifti", load_nibabel)
  ∧ load (Scenario.installation Scenario.only_nibabel) "scan.nii"
      (Scenario.start Scenario.only_nibabel)
    = (Ok (squeeze Scenario.volume, NibabelHeader (Scenario.installation Scenario.only_nibabel) Scenario.volume),
       mkState (X := Scenario.installation Scenario.only_nibabel) 3%nat
         [EvExists "scan.nii"; EvLoader load_nibabel "scan.nii"]).
Proof.
  split; [vm_compute; reflexivity |].
  apply (load_returns_primary (Scenario.installation Scenario.only_nibabel)
           "scan.nii" (Scenario.start Scenario.only_nibabel) "nifti" load_nibabel);
    vm_compute; reflexivity.
Defined.

(** scan.dcm, pydicom not installed, nothing else reads the file: the
    DependencyError of the routed attempt comes out. *)
Lemma load_raises_pending_error_witness :
  load (Scenario.installation Scenario.nothing_works) "scan.dcm"
    (Scenario.start Scenario.nothing_works)
  = (Raise (dependency_error
              "Dicom - Digital Imaging and Communications in Medicine (.dcm, .dicom)"
              Scenario.no_module),
     mkState (X := Scenario.installation Scenario.nothing_works) 4%nat
       [EvExists "scan.dcm"; EvLoader load_pydicom "scan.dcm";
        EvLoader load_nibabel "scan.dcm"; EvLoader load_pydicom "scan.dcm";
        EvLoader load_itk "scan.dcm"]).
Proof.
  apply (load_raises_pending_error (Scenario.installation Scenario.nothing_works)
           "scan.dcm" (Scenario.start Scenario.nothing_works)
           (mkState (X := Scenario.installation Scenario.nothing_works) 1%nat
              [EvExists "scan.dcm"; EvLoader load_pydicom "scan.dcm"]));
    vm_compute; reflexivity.
Defined.

(** scan.png, itk cannot read it, nibabel can: the fallback returns
    nibabel's pair and no error comes out. *)
Lemma load_falls_back_in_order_witness :
  routing "scan.png" = Ok ("png", load_itk)
  ∧ load (Scenario.installation Scenario.only_nibabel) "scan.png"
      (Scenario.start Scenario.only_nibabel)
    = (Ok (squeeze Scenario.volume, NibabelHeader (Scenario.installation Scenario.only_nibabel) Scenario.volume),
       mkState (X := Scenario.installation Scenario.only_nibabel) 6%nat
         [EvExists "scan.png"; EvLoader load_itk "scan.png";
          EvLoader load_nibabel "scan.png"]).
Proof.
  split; [vm_compute; reflexivity |].
  pose proof (load_falls_back_in_order (Scenario.installation Scenario.only_nibabel)
                "scan.png" (Scenario.start Scenario.only_nibabel)
                (mkState (X := Scenario.installation Scenario.only_nibabel) 3%nat
                   [EvExists "scan.png"; EvLoader load_itk "scan.png"])
                (loading_error "scan.png" "Portable Network Graphics (.png)"
                   (mkExn ImageLoadingError "This image can not be loaded with ITK."))
                eq_refl eq_refl) as H.
  exact (proj1 H).
Defined.

(** ** The message of the type error *)

Section Messages.

Lemma contains_prefix (needle post : string) : contains needle (needle +:+ post).
Proof. by exists EmptyString, post. Qed.

Lemma contains_app_r (needle a b : string) :
  contains needle b → contains needle (a +:+ b).
Proof.
  intros (pre & post & ->). exists (a +:+ pre), post. by rewrite app_assoc_str.
Qed.

Lemma contains_app_l (needle a b : string) :
  contains needle a → contains needle (a +:+ b).
Proof.
  intros (pre & post & ->). exists pre, (post +:+ b).
  by rewrite !app_assoc_str.
Qed.

Lemma contains_trans (a b c : string) : contains a b → contains b c → contains a c.
Proof.
  intros Hab (pre & post & ->). by apply contains_app_r, contains_app_l.
Qed.

Lemma contains_join (sep x : string) (l : list string) :
  x ∈ l → contains x (join sep l).
Proof.
  induction l as [|y l IH]; [by intros ?%elem_of_nil |].
  intros [->|Hin]%elem_of_cons.
  - destruct l as [|z l]; [exists EmptyString, EmptyString; by rewrite app_empty_r |].
    rewrite join_cons by done. apply contains_prefix.
  - destruct l as [|z l]; [by apply elem_of_nil in Hin |].
    rewrite join_cons by done. by apply contains_app_r, contains_app_r, IH.
Qed.

Lemma repr_char_plain (c : ascii) :
  plain (String c EmptyString) = true → repr_char apostrophe c = String c EmptyString.
Proof.
  unfold plain, repr_char. cbv zeta.
  destruct (Nat.leb_spec 32 (nat_of_ascii c)); [| done].
  destruct (Nat.ltb_spec (nat_of_ascii c) 127); [| done].
  destruct (bool_decide (c = apostrophe)); [done |].
  destruct (bool_decide (c = backslash)); [done |]. intros _.
  destruct (Nat.eqb_spec (nat_of_ascii c) 9); [lia |].
  destruct (Nat.eqb_spec (nat_of_ascii c) 10); [lia |].
  destruct (Nat.eqb_spec (nat_of_ascii c) 13); [lia |].
  destruct (Nat.ltb_spec (nat_of_ascii c) 32); [lia |].
  destruct (Nat.leb_spec 127 (nat_of_ascii c)); [lia | done].
Qed.

Lemma plain_cons (c : ascii) (s : string) :
  plain (String c s) = true →
  plain (String c EmptyString) = true ∧ c ≠ apostrophe ∧ plain s = true.
Proof.
  simpl. rewrite !andb_true_iff, !negb_true_iff, !bool_decide_eq_false.
  intuition.
Qed.

Lemma repr_body_plain (s : string) :
  plain s = true → repr_body apostrophe s = s ∧ has_char apostrophe s = false.
Proof.
  induction s as [|c s IH]; [done |].
  intros (Hc & Hq & Hs)%plain_cons. destruct (IH Hs) as [Hbody Hhas].
  simpl. rewrite (repr_char_plain _ Hc), Hbody, Hhas.
  split; [done |]. by rewrite bool_decide_eq_false_2.
Qed.

(** The [repr] of a plain string is the string between apostrophes. *)
Lemma py_repr_plain (s : string) :
  plain s = true → py_repr s = "'" +:+ s +:+ "'".
Proof.
  intros [Hbody Hhas]%repr_body_plain. unfold py_repr.
  rewrite Hhas. simpl. by rewrite Hbody.
Qed.

Lemma descriptions_plain (image_type description : string) :
  type_to_string !! image_type = Some description → plain description = true.
Proof.
  intros H. apply elem_of_list_to_map_2 in H. list_cases H; vm_compute; reflexivity.
Qed.

Lemma contains_py_str_list (x : string) (l : list string) :
  plain x = true → x ∈ l → contains x (py_str_list l).
Proof.
  intros Hx Hin. unfold py_str_list.
  apply contains_app_r, contains_app_l.
  apply (contains_trans _ (py_repr x)).
  - rewrite (py_repr_plain _ Hx). apply contains_app_r, contains_prefix.
  - apply contains_join. by apply list_elem_of_fmap_2.
Qed.

(** What the message of [type_error] holds. *)
Lemma type_error_contains (ending image : string) (descriptions : list string) :
  contains ending (exn_str (type_error ending image descriptions))
  ∧ contains image (exn_str (type_error ending image descriptions))
  ∧ ∀ x, plain x = true → x ∈ descriptions →
         contains x (exn_str (type_error ending image descriptions)).
Proof.
  unfold type_error. simpl. split_and!.
  - apply contains_app_r, contains_prefix.
  - do 3 apply contains_app_r. apply contains_prefix.
  - intros x Hx Hin. do 5 apply contains_app_r. by apply contains_py_str_list.
Qed.

End Messages.

Section TypeError.

Variable X : Externals.
Implicit Types (image : string) (st : State X).

Lemma routing_unrecognized image e :
  determine_suffix image = Raise e → routing image = Raise e.
Proof. intros H. unfold routing, classify. by rewrite H. Qed.

Lemma determine_suffix_fails image :
  suffix_to_type !! lower (after_dot 1 image) = None →
  suffix_to_type !! lower (after_dot 2 image) = None →
  determine_suffix image = Raise (mkExn KeyError EmptyString).
Proof.
  intros H1%has_key_false H2%has_key_false.
  by rewrite determine_suffix_spec, H1, H2.
Qed.

(** C7: for a path whose suffix is not recognized and that no fallback
    loader reads, [load] raises an ImageTypeError whose message holds the
    suffix, the path, and every description of [type_to_string], in
    whatever order the interpreter lists the values of the dictionary. *)
Theorem load_unrecognized_suffix image st st2 e :
  dict_values X type_to_string ≡ₚ (map_to_list type_to_string).*2 →
  os_path_exists X image (world st) = true →
  determine_suffix image = Raise e →
  all_fail X load_fallback_order image (after_exists image st) = Some st2 →
  ∃ message,
    load X image st = (Raise (mkExn ImageTypeError message), st2)
    ∧ contains (after_dot 1 image) message
    ∧ contains image message
    ∧ ∀ image_type description,
        type_to_string !! image_type = Some description →
        contains description message.
Proof.
  intros Hvalues Hexists Hsuffix%routing_unrecognized Hfail.
  pose proof (type_error_contains (after_dot 1 image) image
                (dict_values X type_to_string)) as (Hending & Himage & Hdescr).
  eexists. split_and!; [| exact Hending | exact Himage |].
  - rewrite load_unfold, Hexists, (normal_loading_unrouted _ _ _ _ Hsuffix).
    by apply brute_force_all_fail.
  - intros image_type description Hd. apply Hdescr.
    + by eapply descriptions_plain.
    + rewrite Hvalues. apply list_elem_of_fmap. exists (image_type, description).
      split; [done |]. by apply elem_of_map_to_list.
Qed.

(** C10: when neither the last segment nor the compound of the last two
    is a key, the type error that is bound names as the ending the text
    after the last dot of the path as it was given, neither lowercased
    nor extended to the compound that was looked up second; that error
    is what [load] raises when the fallback loaders fail too. *)
Theorem type_error_names_last_segment image st :
  suffix_to_type !! lower (after_dot 1 image) = None →
  suffix_to_type !! lower (after_dot 2 image) = None →
  normal_loading X image st
  = (Ok (Pending
           (mkExn ImageTypeError
              ("The ending " +:+ after_dot 1 image +:+ " of " +:+ image
               +:+ " could not be associated with any known image type. Supported types are: "
               +:+ py_str_list (dict_values X type_to_string)))), st)
  ∧ ∀ st0 st2 : State X,
      os_path_exists X image (world st0) = true →
      all_fail X load_fallback_order image (after_exists image st0) = Some st2 →
      load X image st0
      = (Raise
           (mkExn ImageTypeError
              ("The ending " +:+ after_dot 1 image +:+ " of " +:+ image
               +:+ " could not be associated with any known image type. Supported types are: "
               +:+ py_str_list (dict_values X type_to_string))), st2).
Proof.
  intros H1 H2.
  pose proof (routing_unrecognized _ _ (determine_suffix_fails _ H1 H2)) as Hr.
  split; [by rewrite (normal_loading_unrouted _ _ _ _ Hr) |].
  intros st0 st2 Hexists Hfail.
  rewrite load_unfold, Hexists, (normal_loading_unrouted _ _ _ _ Hr).
  by apply brute_force_all_fail.
Qed.

End TypeError.

Lemma load_unrecognized_suffix_witness :
  ∃ message,
    load (Scenario.installation Scenario.nothing_works) "scan.xyz"
      (Scenario.start Scenario.nothing_works)
    = (Raise (mkExn ImageTypeError message),
       mkState (X := Scenario.installation Scenario.nothing_works) 3%nat
         [EvExists "scan.xyz"; EvLoader load_nibabel "scan.xyz";
          EvLoader load_pydicom "scan.xyz"; EvLoader load_itk "scan.xyz"])
    ∧ contains "xyz" message
    ∧ contains "scan.xyz" message
    ∧ contains "Bitmap Image File (.bmp)" message.
Proof.
  destruct (load_unrecognized_suffix (Scenario.installation Scenario.nothing_works)
              "scan.xyz" (Scenario.start Scenario.nothing_works)
              (mkState (X := Scenario.installation Scenario.nothing_works) 3%nat
                 [EvExists "scan.xyz"; EvLoader load_nibabel "scan.xyz";
                  EvLoader load_pydicom "scan.xyz"; EvLoader load_itk "scan.xyz"])
              (mkExn KeyError EmptyString)
              (reflexivity _) eq_refl eq_refl eq_refl)
    as (message & Hload & Hending & Himage & Hdescr).
  exists message. split_and!; [exact Hload | exact Hending | exact Himage |].
  apply (Hdescr "bmp"). vm_compute. reflexivity.
Defined.

(** The ending of scan.Tar.XYZ is reported as XYZ: not xyz, not Tar.XYZ. *)
Lemma type_error_names_last_segment_witness :
  normal_loading (Scenario.installation Scenario.nothing_works) "scan.Tar.XYZ"
    (Scenario.start Scenario.nothing_works)
  = (Ok (Pending
           (mkExn ImageTypeError
              ("The ending XYZ of scan.Tar.XYZ could not be associated with any known image type. Supported types are: "
               +:+ py_str_list
                     (dict_values (Scenario.installation Scenario.nothing_works)
                        type_to_string)))),
     Scenario.start Scenario.nothing_works).
Proof.
  apply (type_error_names_last_segment (Scenario.installation Scenario.nothing_works)
           "scan.Tar.XYZ" (Scenario.start Scenario.nothing_works));
    vm_compute; reflexivity.
Defined.

(** ** The private loaders *)

Section Loaders.

Variable X : Externals.
Implicit Types (image : string) (st : State X).

(** C8, as the code has it: when the nibabel loader returns, the header
    is the image object [nibabel.load] gave and the array is the data of
    that image with every axis of extent one removed, wherever it stands
    in the shape, first, last or in between; the items are those of the
    data, read at index zero on the removed axes. *)
Theorem nibabel_returns_squeezed image st (arr : ndarray (Scalar X)) (hdr : Header X) st' :
  __load_nibabel X image st = (Ok (arr, hdr), st') →
  ∃ (img : NibabelImage X) (data : ndarray (Scalar X)) w1 w2,
    import_nibabel X (world st) = (Ok (), w1)
    ∧ nibabel_load X image w1 = (Ok img, w2)
    ∧ nibabel_get_data X img w2 = (Ok data, world st')
    ∧ hdr = NibabelHeader X img
    ∧ arr = squeeze data
    ∧ shape arr = filter (λ n, n ≠ 1) (shape data)
    ∧ (1 ∉ shape arr)
    ∧ ∀ idx, item arr idx = item data (unsqueeze_index (shape data) idx).
Proof.
  unfold __load_nibabel, bind, extern, ret.
  destruct (import_nibabel X (world st)) as [[[]|e] w1] eqn:H1; [| done].
  simpl. destruct (nibabel_load X image w1) as [[img|e] w2] eqn:H2; [| done].
  simpl. destruct (nibabel_get_data X img w2) as [[data|e] w3] eqn:H3; [| done].
  intros [= <- <- <-]. exists img, data, w1, w2. split_and!; try done.
  - apply shape_squeeze.
  - apply squeeze_no_singleton.
  - apply item_squeeze.
Qed.

(** C9: when the first read raises an InvalidDicomError, the pydicom
    loader reads once more, forced, and not again: if that read raises,
    the loader raises; if it returns, the loader returns the pixel array
    of what was read with its axes reversed, beside the dataset.  And
    whenever the loader returns, forced read or not, the array is the
    transpose of the dataset's pixel array. *)
Theorem pydicom_retries_forced_once image st e w1 w2 :
  import_dicom X (world st) = (Ok (), w1) →
  dicom_read_file X image false w1 = (Raise e, w2) →
  exn_class e = InvalidDicomError →
  match dicom_read_file X image true w2 with
  | (Raise e', w3) =>
      __load_pydicom X image st
      = (Raise e',
         mkState w3 (trace st ++ [EvDicomRead image false; EvDicomRead image true]))
  | (Ok img, w3) =>
      match dicom_pixel_array X img w3 with
      | (Raise e', w4) =>
          __load_pydicom X image st
          = (Raise e',
             mkState w4 (trace st ++ [EvDicomRead image false; EvDicomRead image true]))
      | (Ok pixels, w4) =>
          __load_pydicom X image st
          = (Ok (transpose pixels, DicomHeader X img),
             mkState w4 (trace st ++ [EvDicomRead image false; EvDicomRead image true]))
          ∧ shape (transpose pixels) = reverse (shape pixels)
          ∧ ∀ idx, item (transpose pixels) idx = item pixels (reverse idx)
      end
  end
  ∧ ∀ st0 (arr : ndarray (Scalar X)) (hdr : Header X) st',
      __load_pydicom X image st0 = (Ok (arr, hdr), st') →
      ∃ (img : DicomDataset X) (pixels : ndarray (Scalar X)) w,
        dicom_pixel_array X img w = (Ok pixels, world st')
        ∧ hdr = DicomHeader X img
        ∧ arr = transpose pixels.
Proof.
  intros Himport Hread He. split.
  - unfold __load_pydicom, dicom_read, bind, try_except, extern, emit, ret, is_class.
    rewrite Himport. simpl. rewrite Hread, He. simpl.
    destruct (dicom_read_file X image true w2) as [[img|e'] w3]; simpl.
    + destruct (dicom_pixel_array X img w3) as [[pixels|e'] w4]; simpl.
      * split_and!; [by rewrite <- app_assoc | apply shape_transpose |].
        apply item_transpose.
      * by rewrite <- app_assoc.
    + by rewrite <- app_assoc.
  - clear. intros st0 arr hdr st'.
    unfold __load_pydicom, dicom_read, bind, try_except, extern, emit, ret.
    destruct (import_dicom X (world st0)) as [[[]|e] w1]; [| done]. simpl.
    destruct (dicom_read_file X image false w1) as [[img|e] w2]; simpl.
    + destruct (dicom_pixel_array X img w2) as [[pixels|e'] w3] eqn:Hp; [| done].
      intros [= <- <- <-]. by exists img, pixels, w2.
    + destruct (is_class InvalidDicomError e); [| done]. simpl.
      destruct (dicom_read_file X image true w2) as [[img|e'] w3]; [| done].
      simpl. destruct (dicom_pixel_array X img w3) as [[pixels|e''] w4] eqn:Hp; [| done].
      intros [= <- <- <-]. by exists img, pixels, w3.
Qed.

End Loaders.

(** C8, as the prose has it, fails on a 2 x 1 x 3 volume: the loader
    returns a 2 x 3 array, the inner singleton axis gone, where
    stripping the two ends of the shape would leave 2 x 1 x 3. *)
Lemma nibabel_removes_inner_axis :
  __load_nibabel (Scenario.installation Scenario.only_nibabel) "vol.nii"
    (Scenario.start Scenario.only_nibabel)
  = (Ok (squeeze Scenario.volume,
         NibabelHeader (Scenario.installation Scenario.only_nibabel) Scenario.volume),
     mkState (X := Scenario.installation Scenario.only_nibabel) 3%nat [])
  ∧ shape Scenario.volume = [2; 1; 3]
  ∧ shape (squeeze Scenario.volume) = [2; 3]
  ∧ strip_singleton_ends (shape Scenario.volume) = [2; 1; 3]
  ∧ shape (squeeze Scenario.volume) ≠ strip_singleton_ends (shape Scenario.volume).
Proof. split_and!; [vm_compute; reflexivity .. | vm_compute; discriminate]. Qed.

Lemma nibabel_returns_squeezed_witness :
  shape (squeeze Scenario.volume) = filter (λ n, n ≠ 1) (shape Scenario.volume)
  ∧ item (squeeze Scenario.volume) [1; 2] = item Scenario.volume [1; 0; 2].
Proof.
  destruct (nibabel_returns_squeezed (Scenario.installation Scenario.only_nibabel)
              "vol.nii" (Scenario.start Scenario.only_nibabel)
              (squeeze Scenario.volume)
              (NibabelHeader (Scenario.installation Scenario.only_nibabel) Scenario.volume)
              (mkState (X := Scenario.installation Scenario.only_nibabel) 3%nat [])
              eq_refl)
    as (img & data & w1 & w2 & _ & _ & Hdata & Hhdr & _ & Hshape & _ & Hitem).
  injection Hhdr as <-. injection Hdata as <- _.
  split; [exact Hshape | exact (Hitem [1; 2])].
Defined.

Lemma pydicom_retries_forced_once_witness :
  __load_pydicom (Scenario.installation Scenario.dicom_when_forced) "scan.dcm"
    (Scenario.start Scenario.dicom_when_forced)
  = (Ok (transpose Scenario.slice,
         DicomHeader (Scenario.installation Scenario.dicom_when_forced) Scenario.slice),
     mkState (X := Scenario.installation Scenario.dicom_when_forced) 4%nat
       [EvDicomRead "scan.dcm" false; EvDicomRead "scan.dcm" true])
  ∧ shape (transpose Scenario.slice) = [3; 2]
  ∧ item (transpose Scenario.slice) [2; 1] = item Scenario.slice [1; 2].
Proof.
  pose proof (pydicom_retries_forced_once (Scenario.installation Scenario.dicom_when_forced)
                "scan.dcm" (Scenario.start Scenario.dicom_when_forced)
                Scenario.bad_dicom 1%nat 2%nat eq_refl eq_refl eq_refl) as [H _].
  simpl in H. destruct H as (Hload & Hshape & Hitem).
  split_and!; [exact Hload | exact Hshape | exact (Hitem [2; 1])].
Defined.

(** * Further properties of the module *)

(** ** Suffixes *)

Section SuffixFacts.

Lemma lower_char_dot (c : ascii) : is_dot (lower_char c) = is_dot c.
Proof.
  destruct c as [b0 b1 b2 b3 b4 b5 b6 b7].
  destruct b0, b1, b2, b3, b4, b5, b6, b7; vm_compute; reflexivity.
Qed.

Lemma lower_char_idemp (c : ascii) : lower_char (lower_char c) = lower_char c.
Proof.
  destruct c as [b0 b1 b2 b3 b4 b5 b6 b7].
  destruct b0, b1, b2, b3, b4, b5, b6, b7; vm_compute; reflexivity.
Qed.

Lemma lower_idemp (s : string) : lower (lower s) = lower s.
Proof. induction s as [|c s IH]; simpl; [done |]. by rewrite lower_char_idemp, IH. Qed.

Lemma count_dots_lower (s : string) : count_dots (lower s) = count_dots s.
Proof. induction s as [|c s IH]; simpl; [done |]. by rewrite lower_char_dot, IH. Qed.

(** Lowercasing moves no dot, so it commutes with taking a suffix. *)
Lemma after_dot_lower (k : nat) (s : string) :
  after_dot k (lower s) = lower (after_dot k s).
Proof.
  induction s as [|c s IH]; [done |].
  change (lower (String c s)) with (String (lower_char c) (lower s)).
  rewrite !after_dot_cons, count_dots_lower, lower_char_dot, IH.
  destruct (k <=? count_dots s)%nat; [done |].
  by destruct (is_dot c && (S (count_dots s) =? k)%nat).
Qed.

(** The text after the [k]-th dot from the end is all of the string, or
    what follows a dot in it. *)
Lemma after_dot_tail (k : nat) (s : string) :
  0 < k →
  (count_dots s < k ∧ after_dot k s = s)
  ∨ ∃ pre, s = pre +:+ "." +:+ after_dot k s.
Proof.
  intros Hk. induction s as [|c s IH]; [left; simpl; by split; [lia |] |].
  rewrite after_dot_cons.
  change (count_dots (String c s))
    with ((if is_dot c then 1 else 0) + count_dots s).
  destruct (Nat.leb_spec k (count_dots s)) as [Hle|Hgt].
  - right. destruct IH as [[Hlt _]|[pre Hpre]]; [lia |].
    exists (String c pre). by rewrite app_cons, <- Hpre.
  - destruct (Nat.eqb_spec (S (count_dots s)) k) as [Heq|Hne].
    + destruct (is_dot c) eqn:Hc; simpl.
      * right. exists EmptyString. by apply is_dot_true in Hc as ->.
      * left. split; [lia | done].
    + rewrite andb_false_r. left. split; [destruct (is_dot c); lia | done].
Qed.

End SuffixFacts.

Section RoutingFacts.

(** X1: routing fails in one way only, with the [KeyError] raised at line
    149 when no suffix is recognized; whenever a suffix is recognized its
    type has a loader and a description, so the subscripts at lines 151,
    153, 158 and 160 never raise. *)
Theorem routing_raises_only_unrecognized (image : string) :
  match routing image with
  | Ok (image_type, loader) =>
      (∃ suffix, determine_suffix image = Ok suffix
                 ∧ suffix_to_type !! suffix = Some image_type)
      ∧ type_to_function !! image_type = Some loader
      ∧ is_Some (type_to_string !! image_type)
  | Raise e =>
      e = mkExn KeyError EmptyString ∧ determine_suffix image = Raise e
  end.
Proof.
  destruct (routing_cases image) as [Hk|(suffix&ty&l&d&Hs&Ht&Hf&Hd&Hok)].
  - rewrite Hk. split; [done |].
    unfold routing, classify in Hk.
    destruct (determine_suffix image) as [suffix|e] eqn:Hs;
      [| simpl in Hk; by injection Hk as ->].
    exfalso. destruct (determine_suffix_key _ _ Hs) as [ty Ht].
    destruct (type_registered _ _ Ht) as (l & d & Hf & Hd).
    unfold res_bind, getitem in Hk. by rewrite Ht, Hf in Hk.
  - rewrite Hok. split_and!; [by exists suffix | done | by exists d].
Qed.

(** X2: routing does not see the case of the path: two paths that are
    equal once lowercased are routed alike. *)
Theorem routing_ignores_case (image image' : string) :
  lower image = lower image' → routing image = routing image'.
Proof.
  intros Heq. unfold routing, classify. rewrite !determine_suffix_spec.
  by rewrite <- !after_dot_lower, Heq.
Qed.

Lemma routing_ignores_case_witness :
  routing "/Data/T1.NII.GZ" = routing "/data/t1.nii.gz"
  ∧ routing "/data/t1.nii.gz" = Ok ("nifti", load_nibabel).
Proof.
  split; [| vm_compute; reflexivity].
  apply (routing_ignores_case "/Data/T1.NII.GZ" "/data/t1.nii.gz").
  vm_compute. reflexivity.
Defined.

(** X3: the suffix a path is classified by is a key of [suffix_to_type]
    that the lowercased path really ends with: it is the whole lowercased
    path, or it follows a dot at the end of it. *)
Theorem determine_suffix_is_extension (image suffix : string) :
  determine_suffix image = Ok suffix →
  is_Some (suffix_to_type !! suffix)
  ∧ (lower image = suffix ∨ ∃ pre, lower image = pre +:+ "." +:+ suffix).
Proof.
  intros Hs. split; [by eapply determine_suffix_key |].
  rewrite determine_suffix_spec in Hs.
  assert (∃ k, 0 < k ∧ suffix = lower (after_dot k image)) as (k & Hk & ->).
  { destruct (has_key _ (lower (after_dot 1 image))).
    - injection Hs as <-. exists 1. by split; [lia |].
    - destruct (has_key _ (lower (after_dot 2 image))); [| done].
      injection Hs as <-. exists 2. by split; [lia |]. }
  rewrite <- after_dot_lower.
  destruct (after_dot_tail k (lower image) Hk) as [[_ Hall]|[pre Hpre]].
  - left. by rewrite Hall.
  - right. by exists pre.
Qed.

Lemma determine_suffix_is_extension_witness :
  determine_suffix "/data/t1.IMG.gz" = Ok "img.gz"
  ∧ (lower "/data/t1.IMG.gz" = "img.gz"
     ∨ ∃ pre, lower "/data/t1.IMG.gz" = pre +:+ "." +:+ "img.gz").
Proof.
  split; [vm_compute; reflexivity |].
  apply (determine_suffix_is_extension "/data/t1.IMG.gz" "img.gz").
  vm_compute. reflexivity.
Defined.

End RoutingFacts.

(** ** Outcomes of [load] *)

Section Outcomes.

Variable X : Externals.
Implicit Types (image : string) (st : State X) (err e : Exn) (loader : Loader).

Lemma brute_force_raise_inv (loaders : list Loader) image err st e st' :
  brute_force X loaders image err st = (Raise e, st') →
  e = err ∧ all_fail X loaders image st = Some st'.
Proof.
  revert st. induction loaders as [|loader rest IH]; intros st; simpl.
  - by intros [= <- <-].
  - unfold try_except.
    destruct (call X loader image st) as [[r|e1] st1]; [done |]. apply IH.
Qed.

Lemma brute_force_ok_inv (loaders : list Loader) image err st (r : Loaded X) st' :
  brute_force X loaders image err st = (Ok r, st') →
  ∃ loader st1, loader ∈ loaders ∧ call X loader image st1 = (Ok r, st').
Proof.
  revert st. induction loaders as [|loader rest IH]; intros st; simpl; [done |].
  unfold try_except.
  destruct (call X loader image st) as [[r1|e1] st1] eqn:Hc.
  - intros [= <- <-]. exists loader, st. split; [by left | done].
  - intros (l & st2 & Hin & Hl)%IH. exists l, st2. split; [by right | done].
Qed.

(** What the normal loading leaves, case by case. *)
Lemma normal_loading_cases image st :
  (∃ e, routing image = Raise e
        ∧ normal_loading X image st
          = (Ok (Pending (type_error (after_dot 1 image) image
                            (dict_values X type_to_string))), st))
  ∨ ∃ image_type loader description,
      routing image = Ok (image_type, loader)
      ∧ type_to_string !! image_type = Some description
      ∧ ((∃ r st1, call X loader image st = (Ok r, st1)
                   ∧ normal_loading X image st = (Ok (Returned r), st1))
         ∨ (∃ e st1, call X loader image st = (Raise e, st1)
                     ∧ normal_loading X image st
                       = (Ok (Pending (if is_class ImportError e
                                       then dependency_error description e
                                       else loading_error image description e)),
                          st1))).
Proof.
  destruct (routing_cases image) as [Hk|(?&ty&l&d&_&_&_&Hd&Hok)].
  - left. eexists. split; [exact Hk |]. by apply normal_loading_unrouted with (e := mkExn KeyError EmptyString).
  - right. exists ty, l, d. split_and!; [done.. |].
    rewrite (normal_loading_routed _ _ _ _ _ _ Hok Hd).
    destruct (call X l image st) as [[r|e] st1]; [left | right]; eauto.
Qed.

(** The error the normal loading binds is one of the three of the module. *)
Lemma pending_error_class image st err st1 :
  normal_loading X image st = (Ok (Pending err), st1) →
  exn_class err ∈ [ImageLoadingError; ImageTypeError; DependencyError].
Proof.
  destruct (normal_loading_cases image st)
    as [(e & _ & ->)|(ty & l & d & _ & _ & [(r & s1 & _ & ->)|(e & s1 & _ & ->)])].
  - intros [= <- _]. simpl. set_solver.
  - done.
  - intros [= <- _]. destruct (is_class ImportError e); simpl; set_solver.
Qed.

(** X4: whatever the third-party modules raise, an exception that leaves
    [load] is an ImageLoadingError, an ImageTypeError or a
    DependencyError, the three the docstring announces. *)
Theorem load_raises_documented_errors image st e st' :
  load X image st = (Raise e, st') →
  exn_class e ∈ [ImageLoadingError; ImageTypeError; DependencyError].
Proof.
  rewrite load_unfold.
  destruct (os_path_exists X image (world st));
    [| intros [= <- _]; simpl; set_solver].
  destruct (normal_loading_flow X image (after_exists image st))
    as ([r|err] & st1 & Hn); rewrite Hn; [done |].
  intros [-> _]%brute_force_raise_inv. by eapply pending_error_class.
Qed.

(** X5: [load] raises only when the file is missing, with the error that
    says so and nothing else done, or when the normal loading has bound
    the error and then every loader of the fallback order has failed. *)
Theorem load_raises_only_after_all_fail image st e st' :
  load X image st = (Raise e, st') →
  (os_path_exists X image (world st) = false
   ∧ e = missing_error image ∧ st' = after_exists image st)
  ∨ (os_path_exists X image (world st) = true
     ∧ ∃ st1, normal_loading X image (after_exists image st) = (Ok (Pending e), st1)
              ∧ all_fail X load_fallback_order image st1 = Some st').
Proof.
  rewrite load_unfold.
  destruct (os_path_exists X image (world st)); [| intros [= <- <-]; by left].
  destruct (normal_loading_flow X image (after_exists image st))
    as ([r|err] & st1 & Hn); rewrite Hn; [done |].
  intros [-> Hfail]%brute_force_raise_inv. right. split; [done |]. by exists st1.
Qed.

(** X6: what [load] returns is what one loader call returned, the routed
    loader's or a fallback loader's, on the same path and unchanged, and
    the state is the one that call left; the file was found to exist. *)
Theorem load_returns_loader_result image st (r : Loaded X) st' :
  load X image st = (Ok r, st') →
  os_path_exists X image (world st) = true
  ∧ ∃ loader st1, call X loader image st1 = (Ok r, st').
Proof.
  rewrite load_unfold.
  destruct (os_path_exists X image (world st)); [| done].
  intros H. split; [done |].
  destruct (normal_loading_cases image (after_exists image st))
    as [(e & _ & Hn)|(ty & l & d & _ & _ & [(r1 & s1 & Hc & Hn)|(e & s1 & _ & Hn)])];
    rewrite Hn in H.
  - apply brute_force_ok_inv in H as (l & s1 & _ & Hl). by exists l, s1.
  - injection H as <- <-. by exists l, (after_exists image st).
  - apply brute_force_ok_inv in H as (l' & s2 & _ & Hl). by exists l', s2.
Qed.

End Outcomes.

Lemma load_raises_documented_errors_witness :
  exn_class
    (dependency_error
       "Dicom - Digital Imaging and Communications in Medicine (.dcm, .dicom)"
       Scenario.no_module)
  ∈ [ImageLoadingError; ImageTypeError; DependencyError].
Proof.
  apply (load_raises_documented_errors (Scenario.installation Scenario.nothing_works)
           "scan.dcm" (Scenario.start Scenario.nothing_works) _
           (mkState (X := Scenario.installation Scenario.nothing_works) 4%nat
              [EvExists "scan.dcm"; EvLoader load_pydicom "scan.dcm";
               EvLoader load_nibabel "scan.dcm"; EvLoader load_pydicom "scan.dcm";
               EvLoader load_itk "scan.dcm"])).
  vm_compute. reflexivity.
Defined.

Lemma load_raises_only_after_all_fail_witness :
  os_path_exists (Scenario.installation Scenario.nothing_works) "scan.xyz" 0%nat = true
  ∧ ∃ st1,
      normal_loading (Scenario.installation Scenario.nothing_works) "scan.xyz"
        (after_exists "scan.xyz" (Scenario.start Scenario.nothing_works))
      = (Ok (Pending
               (type_error "xyz" "scan.xyz"
                  (dict_values (Scenario.installation Scenario.nothing_works)
                     type_to_string))), st1)
      ∧ all_fail (Scenario.installation Scenario.nothing_works) load_fallback_order
          "scan.xyz" st1
        = Some (mkState (X := Scenario.installation Scenario.nothing_works) 3%nat
                  [EvExists "scan.xyz"; EvLoader load_nibabel "scan.xyz";
                   EvLoader load_pydicom "scan.xyz"; EvLoader load_itk "scan.xyz"]).
Proof.
  destruct (load_raises_only_after_all_fail
              (Scenario.installation Scenario.nothing_works) "scan.xyz"
              (Scenario.start Scenario.nothing_works)
              (type_error "xyz" "scan.xyz"
                 (dict_values (Scenario.installation Scenario.nothing_works)
                    type_to_string))
              (mkState (X := Scenario.installation Scenario.nothing_works) 3%nat
                 [EvExists "scan.xyz"; EvLoader load_nibabel "scan.xyz";
                  EvLoader load_pydicom "scan.xyz"; EvLoader load_itk "scan.xyz"])
              eq_refl) as [[Hno _]|Hyes].
  - discriminate Hno.
  - exact Hyes.
Defined.

Lemma load_returns_loader_result_witness :
  ∃ loader st1,
    call (Scenario.installation Scenario.only_nibabel) loader "scan.png" st1
    = (Ok (squeeze Scenario.volume,
           NibabelHeader (Scenario.installation Scenario.only_nibabel) Scenario.volume),
       mkState (X := Scenario.installation Scenario.only_nibabel) 6%nat
         [EvExists "scan.png"; EvLoader load_itk "scan.png";
          EvLoader load_nibabel "scan.png"]).
Proof.
  apply (load_returns_loader_result (Scenario.installation Scenario.only_nibabel)
           "scan.png" (Scenario.start Scenario.only_nibabel)).
  vm_compute. reflexivity.
Defined.

(** ** Calls and messages *)

Section Calls.

Variable X : Externals.
Implicit Types (image : string) (st : State X) (err e : Exn) (loader : Loader).

Lemma brute_force_loader_calls (loaders : list Loader) image err st
    (r : Res (Loaded X)) st' :
  brute_force X loaders image err st = (r, st') →
  ∃ tried, tried `prefix_of` loaders
           ∧ loader_calls (trace st')
             = loader_calls (trace st) ++ ((λ l, (l, image)) <$> tried).
Proof.
  revert st. induction loaders as [|loader rest IH]; intros st; simpl.
  - intros [= <- <-]. exists []. split; [done |]. by rewrite app_nil_r.
  - unfold try_except.
    destruct (call X loader image st) as [[r1|e1] st1] eqn:Hc;
      apply call_loader_calls in Hc.
    + intros [= <- <-]. exists [loader]. split; [| done].
      by apply prefix_cons, prefix_nil.
    + intros (tried & Hpre & Htr)%IH. exists (loader :: tried).
      split; [by apply prefix_cons |].
      rewrite Htr, Hc, <- app_assoc. done.
Qed.

(** X7: in one run [load] calls loaders on its own path only: first the
    routed loader, if the path was routed, then the loaders of the
    fallback order from the first on, stopping at the one that returns;
    so at most four loader calls in all. *)
Theorem load_loader_calls_bounded image st :
  ∃ primary tried : list Loader,
    loader_calls (trace (load X image st).2)
    = loader_calls (trace st)
      ++ ((λ l, (l, image)) <$> primary) ++ ((λ l, (l, image)) <$> tried)
    ∧ (primary = [] ∨ ∃ image_type loader,
                        routing image = Ok (image_type, loader) ∧ primary = [loader])
    ∧ tried `prefix_of` load_fallback_order
    ∧ (length primary + length tried ≤ 4)%nat.
Proof.
  assert (loader_calls (trace (after_exists image st)) = loader_calls (trace st))
    as Hstart.
  { unfold loader_calls. simpl. rewrite omap_app. simpl. by rewrite app_nil_r. }
  assert (∀ tried : list Loader, tried `prefix_of` load_fallback_order →
            (length tried ≤ 3)%nat) as Hlen.
  { intros tried Hpre. by apply prefix_length in Hpre. }
  rewrite load_unfold.
  destruct (os_path_exists X image (world st)).
  2:{ exists [], []. split_and!; [| by left | apply prefix_nil | simpl; lia].
      change (loader_calls (trace (after_exists image st))
              = loader_calls (trace st) ++ []).
      by rewrite Hstart, app_nil_r. }
  destruct (normal_loading_cases X image (after_exists image st))
    as [(e & _ & Hn)|(ty & l & d & Hr & _ & [(r1 & s1 & Hc & Hn)|(e & s1 & Hc & Hn)])];
    rewrite Hn.
  - destruct (brute_force X load_fallback_order image _ (after_exists image st))
      as [r st'] eqn:Hb.
    apply brute_force_loader_calls in Hb as (tried & Hpre & Htr).
    exists [], tried. simpl. rewrite Htr, Hstart.
    split_and!; [done | by left | done | specialize (Hlen _ Hpre); lia].
  - apply call_loader_calls in Hc. exists [l], []. simpl.
    rewrite Hc, Hstart.
    split_and!; [done | right; by exists ty, l | apply prefix_nil | lia].
  - apply call_loader_calls in Hc.
    destruct (brute_force X load_fallback_order image _ s1) as [r st'] eqn:Hb.
    apply brute_force_loader_calls in Hb as (tried & Hpre & Htr).
    exists [l], tried. simpl. rewrite Htr, Hc, Hstart, <- app_assoc.
    split_and!; [done | right; by exists ty, l | done |].
    specialize (Hlen _ Hpre). simpl. lia.
Qed.

(** X8: when the routed loader raises, the error that is bound quotes the
    description of the image type and the loader's own reason; it is a
    DependencyError for an ImportError, and otherwise an
    ImageLoadingError that also quotes the path. *)
Theorem routed_failure_message image st (image_type description : string)
    loader e st1 :
  routing image = Ok (image_type, loader) →
  type_to_string !! image_type = Some description →
  call X loader image st = (Raise e, st1) →
  ∃ err,
    normal_loading X image st = (Ok (Pending err), st1)
    ∧ contains description (exn_str err)
    ∧ contains (exn_str e) (exn_str err)
    ∧ if is_class ImportError e
      then exn_class err = DependencyError
      else exn_class err = ImageLoadingError ∧ contains image (exn_str err).
Proof.
  intros Hr Hd Hc. rewrite (normal_loading_routed _ _ _ _ _ _ Hr Hd), Hc.
  eexists. split; [done |].
  destruct (is_class ImportError e); simpl.
  - split_and!; [| | done].
    + apply contains_app_r, contains_prefix.
    + do 3 apply contains_app_r. apply contains_prefix.
  - split_and!; [| | done |].
    + do 3 apply contains_app_r. apply contains_prefix.
    + do 5 apply contains_app_r. exists EmptyString, EmptyString.
      by rewrite app_empty_r.
    + apply contains_app_r, contains_prefix.
Qed.

End Calls.

Lemma routed_failure_message_witness :
  ∃ err,
    normal_loading (Scenario.installation Scenario.only_nibabel) "scan.png"
      (after_exists "scan.png" (Scenario.start Scenario.only_nibabel))
    = (Ok (Pending err),
       mkState (X := Scenario.installation Scenario.only_nibabel) 3%nat
         [EvExists "scan.png"; EvLoader load_itk "scan.png"])
    ∧ exn_class err = ImageLoadingError
    ∧ contains "scan.png" (exn_str err)
    ∧ contains "Portable Network Graphics (.png)" (exn_str err)
    ∧ contains "This image can not be loaded with ITK." (exn_str err).
Proof.
  destruct (routed_failure_message (Scenario.installation Scenario.only_nibabel)
              "scan.png" (after_exists "scan.png" (Scenario.start Scenario.only_nibabel))
              "png" "Portable Network Graphics (.png)" load_itk
              (mkExn ImageLoadingError "This image can not be loaded with ITK.")
              (mkState (X := Scenario.installation Scenario.only_nibabel) 3%nat
                 [EvExists "scan.png"; EvLoader load_itk "scan.png"])
              eq_refl eq_refl eq_refl)
    as (err & Hn & Hdescr & Hreason & Hclass & Hpath).
  exists err. by split_and!.
Defined.

(** ** The pydicom and itk loaders *)

Section MoreLoaders.

Variable X : Externals.
Implicit Types (image : string) (st : State X).

(** X9: the reads one call of the pydicom loader makes: none when the
    import fails; the plain read alone when it returns or raises anything
    but an InvalidDicomError; the plain read, then the forced one, when
    it raises an InvalidDicomError.  Never more than two, never a forced
    read first. *)
Theorem pydicom_read_attempts image st :
  dicom_reads (trace (__load_pydicom X image st).2)
  = dicom_reads (trace st)
    ++ match import_dicom X (world st) with
       | (Raise _, _) => []
       | (Ok _, w1) =>
           match dicom_read_file X image false w1 with
           | (Ok _, _) => [(image, false)]
           | (Raise e, _) =>
               if is_class InvalidDicomError e
               then [(image, false); (image, true)]
               else [(image, false)]
           end
       end.
Proof.
  unfold __load_pydicom, dicom_read, bind, try_except, extern, emit, ret, dicom_reads.
  destruct (import_dicom X (world st)) as [[[]|e] w1]; simpl;
    [| by rewrite app_nil_r].
  destruct (dicom_read_file X image false w1) as [[img|e] w2]; simpl.
  - destruct (dicom_pixel_array X img w2) as [[pixels|e'] w3]; simpl;
      by rewrite omap_app.
  - destruct (is_class InvalidDicomError e); simpl; [| by rewrite omap_app].
    destruct (dicom_read_file X image true w2) as [[img|e'] w3]; simpl.
    + destruct (dicom_pixel_array X img w3) as [[pixels|e''] w4]; simpl;
        by rewrite !omap_app, <- app_assoc.
    + by rewrite !omap_app, <- app_assoc.
Qed.

(** X10: an exception of the first read that is no InvalidDicomError
    leaves the pydicom loader as it is, after that one read: the forced
    read is kept for files pydicom itself calls invalid. *)
Theorem pydicom_other_error_propagates image st e w1 w2 :
  import_dicom X (world st) = (Ok (), w1) →
  dicom_read_file X image false w1 = (Raise e, w2) →
  exn_class e ≠ InvalidDicomError →
  __load_pydicom X image st
  = (Raise e, mkState w2 (trace st ++ [EvDicomRead image false])).
Proof.
  intros Himport Hread He.
  unfold __load_pydicom, dicom_read, bind, try_except, extern, emit, ret, is_class.
  rewrite Himport. simpl. rewrite Hread. by rewrite bool_decide_eq_false_2.
Qed.

(** X11: when [itku.getImageTypeFromFile] finds no image type, the itk
    loader raises its own ImageLoadingError without building a reader:
    the world is the one the query left. *)
Theorem itk_without_image_type image st w1 w2 w3 :
  import_itk X (world st) = (Ok (), w1) →
  import_itku X w1 = (Ok (), w2) →
  itku_getImageTypeFromFile X image w2 = (Ok None, w3) →
  __load_itk X image st
  = (Raise (mkExn ImageLoadingError "This image can not be loaded with ITK."),
     mkState w3 (trace st)).
Proof.
  intros H1 H2 H3. unfold __load_itk, bind, extern, raise.
  rewrite H1. simpl. rewrite H2. simpl. by rewrite H3.
Qed.

(** X12: when the itk loader returns, the array is the one
    [itku.getArrayFromImage] gave for the image read, as it is, and the
    header is a copy of that image: the one [img.New()] and [Graft] made,
    or, when that raised, the one made through [img.GetPointer()]. *)
Theorem itk_returns_copy image st (arr : ndarray (Scalar X)) (hdr : Header X) st' :
  __load_itk X image st = (Ok (arr, hdr), st') →
  ∃ (ty : ItkImageType X) (img img_copy : ItkImage X) w w1 w2 w3,
    itku_getImageTypeFromFile X image w = (Ok (Some ty), w1)
    ∧ itk_read X ty image w1 = (Ok img, w2)
    ∧ itku_getArrayFromImage X img w2 = (Ok arr, w3)
    ∧ hdr = ItkHeader X img_copy
    ∧ (itk_new_graft X img w3 = (Ok img_copy, world st')
       ∨ ∃ e w4, itk_new_graft X img w3 = (Raise e, w4)
                 ∧ itk_pointer_new_graft X img w4 = (Ok img_copy, world st')).
Proof.
  unfold __load_itk, bind, try_except, extern, raise, ret.
  destruct (import_itk X (world st)) as [[[]|e] w]; [| done]. simpl.
  destruct (import_itku X w) as [[[]|e] w0]; [| done]. simpl.
  destruct (itku_getImageTypeFromFile X image w0) as [[[ty|]|e] w1] eqn:Hty;
    [| done..]. simpl.
  destruct (itk_read X ty image w1) as [[img|e] w2] eqn:Hread; [| done]. simpl.
  destruct (itku_getArrayFromImage X img w2) as [[a|e] w3] eqn:Harr; [| done]. simpl.
  destruct (itk_new_graft X img w3) as [[c|e] w4] eqn:Hnew; simpl.
  - intros [= <- <- <-]. exists ty, img, c, w0, w1, w2, w3.
    split_and!; try done. by left.
  - destruct (itk_pointer_new_graft X img w4) as [[c|e'] w5] eqn:Hptr; [| done].
    intros [= <- <- <-]. exists ty, img, c, w0, w1, w2, w3.
    split_and!; try done. right. by exists e, w4.
Qed.

End MoreLoaders.

Lemma pydicom_other_error_propagates_witness :
  __load_pydicom (Scenario.installation Scenario.dicom_unreadable) "scan.dcm"
    (Scenario.start Scenario.dicom_unreadable)
  = (Raise Scenario.bad_file,
     mkState (X := Scenario.installation Scenario.dicom_unreadable) 2%nat
       [EvDicomRead "scan.dcm" false]).
Proof.
  apply (pydicom_other_error_propagates
           (Scenario.installation Scenario.dicom_unreadable) "scan.dcm"
           (Scenario.start Scenario.dicom_unreadable) Scenario.bad_file 1%nat 2%nat);
    [reflexivity | reflexivity | discriminate].
Defined.

Lemma itk_without_image_type_witness :
  __load_itk (Scenario.installation Scenario.dicom_unreadable) "scan.png"
    (Scenario.start Scenario.dicom_unreadable)
  = (Raise (mkExn ImageLoadingError "This image can not be loaded with ITK."),
     mkState (X := Scenario.installation Scenario.dicom_unreadable) 3%nat []).
Proof.
  apply (itk_without_image_type (Scenario.installation Scenario.dicom_unreadable)
           "scan.png" (Scenario.start Scenario.dicom_unreadable) 1%nat 2%nat 3%nat);
    reflexivity.
Defined.

Lemma itk_returns_copy_witness :
  ∃ (img img_copy : ndarray Z) (w2 w3 : nat),
    ItkHeader (Scenario.installation Scenario.all_installed) Scenario.slice
    = ItkHeader (Scenario.installation Scenario.all_installed) img_copy
    ∧ itku_getArrayFromImage (Scenario.installation Scenario.all_installed) img w2
      = (Ok Scenario.slice, w3).
Proof.
  destruct (itk_returns_copy (Scenario.installation Scenario.all_installed)
              "scan.png" (Scenario.start Scenario.all_installed)
              Scenario.slice
              (ItkHeader (Scenario.installation Scenario.all_installed) Scenario.slice)
              (mkState (X := Scenario.installation Scenario.all_installed) 6%nat [])
              eq_refl)
    as (ty & img & img_copy & w & w1 & w2 & w3 & _ & _ & Harr & Hhdr & _).
  exists img, img_copy, w2, w3. split; [exact Hhdr | exact Harr].
Defined.

(** ** Every registered suffix is in effect *)

Section RegisteredSuffixes.

Lemma count_dots_app (a b : string) :
  count_dots (a +:+ b) = count_dots a + count_dots b.
Proof.
  induction a as [|c a IH]; [done |].
  rewrite app_cons. simpl. rewrite IH. lia.
Qed.

(** What stands before the last [k] dots of a string plays no part. *)
Lemma after_dot_app (k : nat) (pre s : string) :
  (k ≤ count_dots s)%nat → after_dot k (pre +:+ s) = after_dot k s.
Proof.
  intros Hk. induction pre as [|c pre IH]; [done |].
  rewrite app_cons, after_dot_cons, count_dots_app.
  destruct (Nat.leb_spec k (count_dots pre + count_dots s)); [done | lia].
Qed.

Lemma after_dot_app_dot (k : nat) (pre s : string) :
  k = S (count_dots s) → after_dot k (pre +:+ "." +:+ s) = s.
Proof.
  intros ->. induction pre as [|c pre IH].
  - change (EmptyString +:+ "." +:+ s) with (String dot s).
    rewrite after_dot_cons.
    destruct (Nat.leb_spec (S (count_dots s)) (count_dots s)); [lia |].
    by rewrite Nat.eqb_refl.
  - rewrite app_cons, after_dot_cons, count_dots_app.
    change (count_dots ("." +:+ s)) with (S (count_dots s)).
    destruct (Nat.leb_spec (S (count_dots s)) (count_dots pre + S (count_dots s)));
      [done | lia].
Qed.

(** X13: no entry of [suffix_to_type] is shadowed: a path made of any
    stem, a dot and a registered suffix is classified with the type
    registered for that suffix, compound suffixes (nii.gz, img.gz)
    included, whatever dots or capitals the stem holds. *)
Theorem registered_suffix_classifies (stem suffix image_type : string) :
  suffix_to_type !! suffix = Some image_type →
  classify (stem +:+ "." +:+ suffix) = Ok image_type.
Proof.
  intros H. apply elem_of_list_to_map_2 in H. unfold classify.
  rewrite determine_suffix_spec.
  list_cases H;
    first
      [ rewrite (after_dot_app_dot 1 stem) by reflexivity; vm_compute; reflexivity
      | rewrite <- (app_assoc_str stem "."), (after_dot_app 1) by (vm_compute; lia);
        rewrite (app_assoc_str stem "."), (after_dot_app_dot 2 stem) by reflexivity;
        vm_compute; reflexivity ].
Qed.

Lemma registered_suffix_classifies_witness :
  classify ("/data/Study.v2/T1" +:+ "." +:+ "img.gz") = Ok "analyze".
Proof.
  apply (registered_suffix_classifies "/data/Study.v2/T1" "img.gz" "analyze").
  vm_compute. reflexivity.
Defined.

End RegisteredSuffixes.

(** ** The arrays the loaders return *)

Section LoadedArrays.

Variable X : Externals.
Implicit Types (image : string) (st : State X) (a : ndarray (Scalar X)).

Lemma size_squeeze a : size (squeeze a) = size a.
Proof.
  unfold size. rewrite shape_squeeze.
  induction (shape a) as [|n sh IH]; [done |].
  destruct (decide (n = 1)) as [->|Hn].
  - rewrite filter_cons_False by tauto. simpl. lia.
  - rewrite filter_cons_True by done. simpl. by rewrite IH.
Qed.

Lemma squeeze_idemp a : squeeze (squeeze a) = squeeze a.
Proof.
  unfold squeeze. simpl. f_equal.
  induction (dims a) as [|[n stride] ds IH]; [done |].
  destruct (decide (n = 1)) as [->|Hn].
  - by rewrite !filter_cons_False by (simpl; tauto).
  - rewrite !filter_cons_True by done. by rewrite IH.
Qed.

Lemma size_transpose a : size (transpose a) = size a.
Proof.
  unfold size. rewrite shape_transpose.
  induction (shape a) as [|n sh IH]; [done |].
  rewrite reverse_cons, foldr_app. simpl. rewrite <- IH.
  generalize (reverse sh). intros l. induction l as [|m l IHl]; simpl; [lia |].
  rewrite IHl. lia.
Qed.

Lemma transpose_involutive a : transpose (transpose a) = a.
Proof. destruct a. unfold transpose. simpl. by rewrite reverse_involutive. Qed.

Lemma nibabel_ok_inv image st a (hdr : Header X) st' :
  __load_nibabel X image st = (Ok (a, hdr), st') →
  ∃ (img : NibabelImage X) data w,
    nibabel_get_data X img w = (Ok data, world st')
    ∧ hdr = NibabelHeader X img ∧ a = squeeze data.
Proof.
  unfold __load_nibabel, bind, extern, ret.
  destruct (import_nibabel X (world st)) as [[[]|e] w1]; [| done]. simpl.
  destruct (nibabel_load X image w1) as [[img|e] w2]; [| done]. simpl.
  destruct (nibabel_get_data X img w2) as [[data|e] w3] eqn:Hd; [| done].
  intros [= <- <- <-]. by exists img, data, w2.
Qed.

Lemma pydicom_ok_inv image st a (hdr : Header X) st' :
  __load_pydicom X image st = (Ok (a, hdr), st') →
  ∃ (img : DicomDataset X) pixels w,
    dicom_pixel_array X img w = (Ok pixels, world st')
    ∧ hdr = DicomHeader X img ∧ a = transpose pixels.
Proof.
  unfold __load_pydicom, dicom_read, bind, try_except, extern, emit, ret.
  destruct (import_dicom X (world st)) as [[[]|e] w1]; [| done]. simpl.
  destruct (dicom_read_file X image false w1) as [[img|e] w2]; simpl.
  - destruct (dicom_pixel_array X img w2) as [[pixels|e'] w3] eqn:Hp; [| done].
    intros [= <- <- <-]. by exists img, pixels, w2.
  - destruct (is_class InvalidDicomError e); [| done]. simpl.
    destruct (dicom_read_file X image true w2) as [[img|e'] w3]; [| done].
    simpl. destruct (dicom_pixel_array X img w3) as [[pixels|e''] w4] eqn:Hp; [| done].
    intros [= <- <- <-]. by exists img, pixels, w3.
Qed.

(** X14: the array the nibabel loader returns has as many items as the
    data of the image, in the same buffer, and squeezing it again changes
    nothing. *)
Theorem nibabel_keeps_items image st a (hdr : Header X) st' :
  __load_nibabel X image st = (Ok (a, hdr), st') →
  ∃ (img : NibabelImage X) data w,
    nibabel_get_data X img w = (Ok data, world st')
    ∧ hdr = NibabelHeader X img
    ∧ size a = size data
    ∧ buffer a = buffer data
    ∧ squeeze a = a.
Proof.
  intros (img & data & w & Hd & -> & ->)%nibabel_ok_inv.
  exists img, data, w. split_and!; [done.. | apply size_squeeze | done |].
  apply squeeze_idemp.
Qed.

(** X15: the array the pydicom loader returns, transposed once more, is
    the pixel array of the dataset it returns as header: the loader
    reorders the axes and loses nothing. *)
Theorem pydicom_transpose_back image st a (hdr : Header X) st' :
  __load_pydicom X image st = (Ok (a, hdr), st') →
  ∃ (img : DicomDataset X) pixels w,
    dicom_pixel_array X img w = (Ok pixels, world st')
    ∧ hdr = DicomHeader X img
    ∧ transpose a = pixels
    ∧ size a = size pixels.
Proof.
  intros (img & pixels & w & Hp & -> & ->)%pydicom_ok_inv.
  exists img, pixels, w.
  split_and!; [done.. | apply transpose_involutive | apply size_transpose].
Qed.

End LoadedArrays.

Lemma nibabel_keeps_items_witness :
  size (squeeze Scenario.volume) = size Scenario.volume
  ∧ size Scenario.volume = 6.
Proof.
  destruct (nibabel_keeps_items (Scenario.installation Scenario.only_nibabel)
              "vol.nii" (Scenario.start Scenario.only_nibabel)
              (squeeze Scenario.volume)
              (NibabelHeader (Scenario.installation Scenario.only_nibabel) Scenario.volume)
              (mkState (X := Scenario.installation Scenario.only_nibabel) 3%nat [])
              eq_refl)
    as (img & data & w & Hdata & Hhdr & Hsize & _).
  injection Hhdr as <-. injection Hdata as <- _. split; [exact Hsize | reflexivity].
Defined.

Lemma pydicom_transpose_back_witness :
  transpose (transpose Scenario.slice) = Scenario.slice.
Proof.
  destruct (pydicom_transpose_back (Scenario.installation Scenario.dicom_when_forced)
              "scan.dcm" (Scenario.start Scenario.dicom_when_forced)
              (transpose Scenario.slice)
              (DicomHeader (Scenario.installation Scenario.dicom_when_forced) Scenario.slice)
              (mkState (X := Scenario.installation Scenario.dicom_when_forced) 4%nat
                 [EvDicomRead "scan.dcm" false; EvDicomRead "scan.dcm" true])
              eq_refl)
    as (img & pixels & w & Hpixels & Hhdr & Hback & _).
  injection Hhdr as <-. injection Hpixels as <- _. exact Hback.
Defined.
